(** * OOP_base: the transaction pipeline (queue, processor, risk analyzer)

    A shallow embedding of the Python sources

      - [day1/model/abstract_account.py], [model/bank_account.py],
        [day1/exeptions/exceptions.py]
      - [day2/model/{savings,premium,investment}_account.py]
      - [day4/model/{transaction,queue,processor}.py]
      - [day5/model/audit.py]

    Conventions of the embedding.

    - Python objects that are mutated in place and shared by reference
      (accounts, transactions) live in a store indexed by references
      ([nat]); a reference always denotes an object, so both stores are
      total maps.  The queue, the processor, the audit log and the risk
      analyzer exist once and are fields of the [World].
    - Python [float] amounts are exact rationals [Q] (no rounding, no NaN,
      no infinities); equalities on amounts are stated with [==].  A
      statement that gives the value of a sum, a difference or a product of
      amounts, or that decides a comparison of such values, is therefore a
      statement in exact arithmetic: it describes the code on the inputs
      on which the [float] operations involved do not round.
    - A [datetime] is a number of microseconds since the epoch (UTC);
      [timedelta(seconds=n)] is [n * 1000000].  Every call of
      [datetime.now(timezone.utc)] consumes the next reading of
      [utc_clock].  The datetimes a caller passes are aware UTC datetimes
      like the timestamps of [Transaction]; the wall time of another time
      zone is not modelled.
    - A raised exception is an outcome [Raise e]; the world that comes with
      it holds every mutation made before the [raise].
    - [heapq] (standard library, not part of the repository) is modelled by
      its contract: the heap is a list kept in ascending order of the
      comparison key, [heap[0]] is its head. *)

From Stdlib Require Import ZArith QArith Lqa Lia String List Sorted.
From Stdlib Require Floats.PrimFloat.
From stdpp Require Import gmap strings.

Import ListNotations.
Local Open Scope string_scope.
Local Open Scope Z_scope.

(** ** Exceptions ([day1/exeptions/exceptions.py] and the builtins the code meets) *)

Inductive ExnClass :=
| AccountFrozenError
| AccountClosedError
| InvalidOperationError
| InsufficientFundsError
| TypeError
| ValueError
| AttributeError
| OtherException (name : string).

Record Exn := mkExn { exn_class : ExnClass; exn_msg : string }.

(** [type(e).__name__] *)
Definition exn_name (c : ExnClass) : string :=
  match c with
  | AccountFrozenError => "AccountFrozenError"
  | AccountClosedError => "AccountClosedError"
  | InvalidOperationError => "InvalidOperationError"
  | InsufficientFundsError => "InsufficientFundsError"
  | TypeError => "TypeError"
  | ValueError => "ValueError"
  | AttributeError => "AttributeError"
  | OtherException n => n
  end.

(** The classes caught by
    [except (AccountFrozenError, AccountClosedError, InsufficientFundsError, InvalidOperationError)]. *)
Definition is_terminal (c : ExnClass) : bool :=
  match c with
  | AccountFrozenError | AccountClosedError
  | InsufficientFundsError | InvalidOperationError => true
  | _ => false
  end.

(** ** Accounts *)

Inductive AccountStatus := ACTIVE | FROZEN | CLOSED.

Inductive Currency := RUB | USD | EUR | KZT | CNY.

Record Owner := mkOwner { name : string; email : string }.

(** The concrete classes below [BankAccount]; the payload is what the
    subclass adds to the base fields. *)
Inductive AccountKind :=
| BankAccount
| SavingsAccount (min_balance monthly_interest_rate : Q)
| PremiumAccount (overdraft_limit withdraw_fee_fixed : Q)
| InvestmentAccount (stocks bonds etf : Q).

Record Account := mkAccount {
  acc_id : string;
  owner : Owner;
  _balance : Q;
  status : AccountStatus;
  currency : Currency;
  kind : AccountKind;
}.

Definition set_balance (b : Q) (a : Account) : Account :=
  mkAccount (acc_id a) (owner a) b (status a) (currency a) (kind a).

(** [isinstance(acc, PremiumAccount)] *)
Definition is_premium (a : Account) : bool :=
  match kind a with PremiumAccount _ _ => true | _ => false end.

Definition Qltb (x y : Q) : bool := negb (Qle_bool y x).

Global Instance Currency_eq_dec : EqDecision Currency.
Proof. solve_decision. Defined.

Definition Currency_to_nat (c : Currency) : nat :=
  match c with RUB => 0 | USD => 1 | EUR => 2 | KZT => 3 | CNY => 4 end%nat.

Definition Currency_of_nat (n : nat) : Currency :=
  match n with
  | 0 => RUB | 1 => USD | 2 => EUR | 3 => KZT | _ => CNY
  end%nat.

Global Instance Currency_countable : Countable Currency.
Proof.
  apply (inj_countable' Currency_to_nat Currency_of_nat).
  intros []; reflexivity.
Defined.

Definition Currency_eqb (a b : Currency) : bool :=
  match a, b with
  | RUB, RUB | USD, USD | EUR, EUR | KZT, KZT | CNY, CNY => true
  | _, _ => false
  end.

(** ** Time *)

Definition datetime := Z.

Definition timedelta_seconds (n : Z) : Z := n * 1000000.

(** ** Values of fields typed [float] that the code still guards with
       [float(...)]: a number, or any other object, given by its truth value
       and by the exception [float()] raises on it. *)
Inductive PyValue :=
| PyFloat (q : Q)
| PyNonNumeric (truthy : bool) (err : Exn).

(** [x or 0.0] followed by [float(...)] is handled in the processor; this
    is Python truthiness. *)
Definition py_truthy (v : PyValue) : bool :=
  match v with
  | PyFloat q => negb (Qeq_bool q 0)
  | PyNonNumeric t _ => t
  end.

(** [sender] and [recipient] are [Optional[object]]: [None], an account,
    or an object of some other type (without [status], [currency], [id],
    [owner]). *)
Inductive PyObj :=
| PyNone
| PyAccount (ref : nat)
| PyObject (type_name : string).

(** ** Transactions ([day4/model/transaction.py]) *)

Inductive TransactionType := TRANSFER.

Inductive TransactionStatus := PENDING | CANCELLED | PROCESSED | FAILED.

Record Transaction := mkTransaction {
  tx_id : string;
  tx_type : TransactionType;
  amount : PyValue;
  tx_currency : Currency;
  sender : PyObj;
  recipient : PyObj;
  fee_fixed : PyValue;
  scheduled_at : datetime;
  priority : Z;
  is_external : bool;
  tx_status : TransactionStatus;
  failure_reason : option string;
  created_at : datetime;
  processed_at : option datetime;
  updated_at : datetime;
  attempts : Z;
}.

(** ** The queue ([day4/model/queue.py]) *)

(** [_QueueItem]: [tx_id] takes no part in comparisons ([compare=False]). *)
Record _QueueItem := mkQueueItem {
  qi_scheduled_at : datetime;
  neg_priority : Z;
  order : Z;
  qi_tx_id : string;
}.

Record TransactionQueue := mkQueue {
  _heap : list _QueueItem;
  _items : gmap string nat;
  _order_seq : Z;
}.

(** ** Audit log and risk analyzer state ([day5/model/audit.py]) *)

Inductive AuditLevel := INFO | WARNING | ERROR.

Inductive ExtraValue := ExtraStr (s : string) | ExtraNum (q : Q).

Record AuditRecord := mkAuditRecord {
  level : AuditLevel;
  message : string;
  timestamp : datetime;
  extra : list (string * ExtraValue);
}.

Record AuditLog := mkAuditLog { records : list AuditRecord }.

Inductive RiskLevel := LOW | MEDIUM | HIGH.

Record RiskConfig := mkRiskConfig {
  large_amount_threshold : gmap Currency Q;
  frequency_window_seconds : Z;
  frequency_limit : Z;
  night_from : Z;
  night_to : Z;
}.

Record RiskAnalyzer := mkRiskAnalyzer {
  risk_config : RiskConfig;
  _history : gmap string (list datetime);
  _known_recipients : gmap string (gset string);
}.

(** ** Processor configuration ([day4/model/processor.py]) *)

Record ProcessorConfig := mkProcessorConfig {
  external_fee_fixed : Q;
  max_retries : Z;
  rates : gmap (Currency * Currency) Q;
}.

(** ** The world: object stores, the singleton components, the clock *)

Record World := mkWorld {
  accounts : nat -> Account;
  transactions : nat -> Transaction;
  queue : TransactionQueue;
  config : ProcessorConfig;
  error_log : list string;
  audit_log : option AuditLog;
  risk_analyzer : option RiskAnalyzer;
  utc_clock : nat -> datetime;
  clock_reads : nat;
}.

Definition set_accounts (f : nat -> Account) (w : World) : World :=
  mkWorld f (transactions w) (queue w) (config w) (error_log w)
          (audit_log w) (risk_analyzer w) (utc_clock w) (clock_reads w).

Definition set_transactions (f : nat -> Transaction) (w : World) : World :=
  mkWorld (accounts w) f (queue w) (config w) (error_log w)
          (audit_log w) (risk_analyzer w) (utc_clock w) (clock_reads w).

Definition set_queue (q : TransactionQueue) (w : World) : World :=
  mkWorld (accounts w) (transactions w) q (config w) (error_log w)
          (audit_log w) (risk_analyzer w) (utc_clock w) (clock_reads w).

Definition set_error_log (l : list string) (w : World) : World :=
  mkWorld (accounts w) (transactions w) (queue w) (config w) l
          (audit_log w) (risk_analyzer w) (utc_clock w) (clock_reads w).

Definition set_audit_log (l : option AuditLog) (w : World) : World :=
  mkWorld (accounts w) (transactions w) (queue w) (config w) (error_log w)
          l (risk_analyzer w) (utc_clock w) (clock_reads w).

Definition set_risk_analyzer (r : option RiskAnalyzer) (w : World) : World :=
  mkWorld (accounts w) (transactions w) (queue w) (config w) (error_log w)
          (audit_log w) r (utc_clock w) (clock_reads w).

Definition set_clock_reads (n : nat) (w : World) : World :=
  mkWorld (accounts w) (transactions w) (queue w) (config w) (error_log w)
          (audit_log w) (risk_analyzer w) (utc_clock w) n.

(** Store update at one reference. *)
Definition upd {A} (f : nat -> A) (l : nat) (v : A) : nat -> A :=
  fun k => if Nat.eqb k l then v else f k.

(** ** The monad of the embedding: state plus exceptions *)

Inductive Outcome (A : Type) :=
| Return (a : A)
| Raise (e : Exn).
Arguments Return {A} a.
Arguments Raise {A} e.

Definition M (A : Type) : Type := World -> Outcome A * World.

Definition ret {A} (a : A) : M A := fun w => (Return a, w).

Definition bind {A B} (m : M A) (k : A -> M B) : M B :=
  fun w => match m w with
           | (Return a, w') => k a w'
           | (Raise e, w') => (Raise e, w')
           end.

Definition raise {A} (c : ExnClass) (msg : string) : M A :=
  fun w => (Raise (mkExn c msg), w).

Definition reraise {A} (e : Exn) : M A := fun w => (Raise e, w).

Definition get : M World := fun w => (Return w, w).

Definition modify (f : World -> World) : M unit := fun w => (Return tt, f w).

(** [try: m  except <classes accepted by handles> as e: h e]; an exception
    of another class goes on. *)
Definition try_except {A} (m : M A) (handles : ExnClass -> bool) (h : Exn -> M A) : M A :=
  fun w => match m w with
           | (Return a, w') => (Return a, w')
           | (Raise e, w') => if handles (exn_class e) then h e w' else (Raise e, w')
           end.

Declare Scope py_scope.
Delimit Scope py_scope with py.
Notation "x <- m ;; k" := (bind m (fun x => k))
  (at level 100, m at next level, right associativity) : py_scope.
Notation "m ;;; k" := (bind m (fun _ => k))
  (at level 100, right associativity) : py_scope.
Local Open Scope py_scope.

(** [datetime.now(timezone.utc)] *)
Definition datetime_now : M datetime :=
  fun w => (Return (utc_clock w (clock_reads w)), set_clock_reads (S (clock_reads w)) w).

(** [now = now or datetime.now(timezone.utc)]: a [datetime] is always truthy. *)
Definition now_or_clock (now : option datetime) : M datetime :=
  match now with
  | Some t => ret t
  | None => datetime_now
  end.

Definition read_account (l : nat) : M Account := fun w => (Return (accounts w l), w).

Definition write_account (l : nat) (a : Account) : M unit :=
  modify (fun w => set_accounts (upd (accounts w) l a) w).

Definition read_tx (l : nat) : M Transaction := fun w => (Return (transactions w l), w).

Definition write_tx (l : nat) (t : Transaction) : M unit :=
  modify (fun w => set_transactions (upd (transactions w) l t) w).

(** ** [BankAccount] and its subclasses: [deposit], [withdraw] *)

Definition msg_frozen := "Счёт заморожен. Операция запрещена.".
Definition msg_closed := "Счёт закрыт. Операция запрещена.".
Definition msg_amount_positive := "Сумма должна быть положительной и больше нуля.".
Definition msg_insufficient := "Недостаточно средств.".
Definition msg_below_min := "Нельзя опускаться ниже минимального остатка.".
Definition msg_overdraft := "Превышен лимит овердрафта.".

(** [BankAccount._ensure_active] *)
Definition _ensure_active (l : nat) : M unit :=
  a <- read_account l ;;
  match status a with
  | FROZEN => raise AccountFrozenError msg_frozen
  | CLOSED => raise AccountClosedError msg_closed
  | ACTIVE => ret tt
  end.

(** [BankAccount._validate_amount]: the argument is already a float here. *)
Definition _validate_amount (amt : Q) : M Q :=
  if Qle_bool amt 0 then raise InvalidOperationError msg_amount_positive
  else ret amt.

(** [BankAccount.deposit], inherited unchanged by every subclass. *)
Definition deposit (l : nat) (amt : Q) : M unit :=
  _ensure_active l ;;;
  value <- _validate_amount amt ;;
  a <- read_account l ;;
  write_account l (set_balance (_balance a + value)%Q a).

Definition BankAccount_withdraw (l : nat) (amt : Q) : M unit :=
  _ensure_active l ;;;
  value <- _validate_amount amt ;;
  a <- read_account l ;;
  if Qltb (_balance a) value then raise InsufficientFundsError msg_insufficient
  else write_account l (set_balance (_balance a - value)%Q a).

Definition SavingsAccount_withdraw (min_bal : Q) (l : nat) (amt : Q) : M unit :=
  value <- _validate_amount amt ;;
  _ensure_active l ;;;
  a <- read_account l ;;
  if Qltb (_balance a - value)%Q min_bal then raise InsufficientFundsError msg_below_min
  else write_account l (set_balance (_balance a - value)%Q a).

Definition PremiumAccount_withdraw (overdraft fee : Q) (l : nat) (amt : Q) : M unit :=
  _ensure_active l ;;;
  value <- _validate_amount amt ;;
  a <- read_account l ;;
  let total_debit := (value + fee)%Q in
  if Qltb (_balance a - total_debit)%Q (- overdraft)%Q
  then raise InsufficientFundsError msg_overdraft
  else write_account l (set_balance (_balance a - total_debit)%Q a).

(** [acc.withdraw(amount)]: dispatch on the class of the object;
    [InvestmentAccount.withdraw] calls [super().withdraw]. *)
Definition withdraw (l : nat) (amt : Q) : M unit :=
  a <- read_account l ;;
  match kind a with
  | BankAccount => BankAccount_withdraw l amt
  | SavingsAccount min_bal _ => SavingsAccount_withdraw min_bal l amt
  | PremiumAccount overdraft fee => PremiumAccount_withdraw overdraft fee l amt
  | InvestmentAccount _ _ _ => BankAccount_withdraw l amt
  end.

(** ** [Transaction]: the lifecycle methods *)

Definition set_lifecycle (st : TransactionStatus) (reason : option string)
    (processed : option datetime) (updated : datetime) (t : Transaction) : Transaction :=
  mkTransaction (tx_id t) (tx_type t) (amount t) (tx_currency t) (sender t) (recipient t)
    (fee_fixed t) (scheduled_at t) (priority t) (is_external t)
    st reason (created_at t) processed updated (attempts t).

Definition set_scheduled_at (s : datetime) (t : Transaction) : Transaction :=
  mkTransaction (tx_id t) (tx_type t) (amount t) (tx_currency t) (sender t) (recipient t)
    (fee_fixed t) s (priority t) (is_external t)
    (tx_status t) (failure_reason t) (created_at t) (processed_at t) (updated_at t) (attempts t).

Definition set_attempts (n : Z) (t : Transaction) : Transaction :=
  mkTransaction (tx_id t) (tx_type t) (amount t) (tx_currency t) (sender t) (recipient t)
    (fee_fixed t) (scheduled_at t) (priority t) (is_external t)
    (tx_status t) (failure_reason t) (created_at t) (processed_at t) (updated_at t) n.

Definition set_updated_at (u : datetime) (t : Transaction) : Transaction :=
  mkTransaction (tx_id t) (tx_type t) (amount t) (tx_currency t) (sender t) (recipient t)
    (fee_fixed t) (scheduled_at t) (priority t) (is_external t)
    (tx_status t) (failure_reason t) (created_at t) (processed_at t) u (attempts t).

(** [Transaction.mark_failed] *)
Definition mark_failed (tx : nat) (reason : string) : M unit :=
  now <- datetime_now ;;
  t <- read_tx tx ;;
  write_tx tx (set_lifecycle FAILED (Some reason) (processed_at t) now t).

(** [Transaction.mark_processed] *)
Definition mark_processed (tx : nat) : M unit :=
  now <- datetime_now ;;
  t <- read_tx tx ;;
  write_tx tx (set_lifecycle PROCESSED None (Some now) now t).

(** [Transaction.cancel] *)
Definition Transaction_cancel (tx : nat) (reason : string) : M unit :=
  now <- datetime_now ;;
  t <- read_tx tx ;;
  write_tx tx (set_lifecycle CANCELLED (Some reason) (processed_at t) now t).

(** ** [heapq] on [_QueueItem] *)

(** [_QueueItem.__lt__] as generated by [@dataclass(order=True)]: the tuples
    [(scheduled_at, neg_priority, order)] compared lexicographically. *)
Definition item_ltb (a b : _QueueItem) : bool :=
  (qi_scheduled_at a <? qi_scheduled_at b)
  || ((qi_scheduled_at a =? qi_scheduled_at b)
      && ((neg_priority a <? neg_priority b)
          || ((neg_priority a =? neg_priority b) && (order a <? order b)))).

(** [heapq.heappush] *)
Fixpoint heappush (h : list _QueueItem) (x : _QueueItem) : list _QueueItem :=
  match h with
  | [] => [x]
  | y :: h' => if item_ltb y x then y :: heappush h' x else x :: h
  end.

(** ** [TransactionQueue] *)

Definition msg_duplicate := "Транзакция с таким id уже есть в очереди.".

(** The item pushed for a transaction by [add] and [requeue]. *)
Definition item_of (t : Transaction) (seq : Z) : _QueueItem :=
  mkQueueItem (scheduled_at t) (- priority t) seq (tx_id t).

(** [TransactionQueue.add] *)
Definition add (tx : nat) : M unit :=
  t <- read_tx tx ;;
  w <- get ;;
  let q := queue w in
  match _items q !! tx_id t with
  | Some _ => raise ValueError msg_duplicate
  | None =>
      let seq := _order_seq q + 1 in
      modify (set_queue (mkQueue (heappush (_heap q) (item_of t seq))
                                 (<[tx_id t := tx]> (_items q)) seq))
  end.

(** [TransactionQueue.cancel] *)
Definition cancel (id : string) (reason : string) : M bool :=
  w <- get ;;
  match _items (queue w) !! id with
  | None => ret false
  | Some tx =>
      t <- read_tx tx ;;
      match tx_status t with
      | PROCESSED | CANCELLED => ret false
      | _ => Transaction_cancel tx reason ;;; ret true
      end
  end.

(** The [while self._heap:] loop of [pop_ready]; every iteration that does
    not return pops the head, so the recursion is on the heap. *)
Fixpoint pop_loop (items : gmap string nat) (txs : nat -> Transaction) (now : datetime)
    (h : list _QueueItem) : option nat * list _QueueItem :=
  match h with
  | [] => (None, [])
  | top :: rest =>
      if now <? qi_scheduled_at top then (None, h)
      else match items !! qi_tx_id top with
           | None => pop_loop items txs now rest
           | Some tx =>
               match tx_status (txs tx) with
               | PENDING => (Some tx, rest)
               | _ => pop_loop items txs now rest
               end
           end
  end.

(** [TransactionQueue.pop_ready] *)
Definition pop_ready (now : option datetime) : M (option nat) :=
  now <- now_or_clock now ;;
  w <- get ;;
  let q := queue w in
  let '(res, h) := pop_loop (_items q) (transactions w) now (_heap q) in
  modify (set_queue (mkQueue h (_items q) (_order_seq q))) ;;;
  ret res.

(** [TransactionQueue.requeue]; [tx.scheduled_at or datetime.now(...)] keeps
    [tx.scheduled_at], a [datetime] being truthy. *)
Definition requeue (tx : nat) (delay_seconds : Z) : M unit :=
  t <- read_tx tx ;;
  match tx_status t with
  | PENDING =>
      (if 0 <? delay_seconds
       then now <- datetime_now ;;
            write_tx tx (set_scheduled_at (now + timedelta_seconds delay_seconds) t)
       else ret tt) ;;;
      t' <- read_tx tx ;;
      w <- get ;;
      let q := queue w in
      let seq := _order_seq q + 1 in
      modify (set_queue (mkQueue (heappush (_heap q) (item_of t' seq)) (_items q) seq))
  | _ => ret tt
  end.

(** ** [AuditLog] *)

(** [AuditLog.add]: the record's [timestamp] default reads the clock. *)
Definition AuditLog_add (log : AuditLog) (lvl : AuditLevel) (msg : string)
    (ex : list (string * ExtraValue)) : M AuditLog :=
  ts <- datetime_now ;;
  ret (mkAuditLog (records log ++ [mkAuditRecord lvl msg ts ex])%list).

(** ** [RiskAnalyzer] *)

Definition reason_large_amount := "крупная сумма".
Definition reason_frequent := "частые операции".
Definition reason_new_recipient := "перевод на новый счёт".
Definition reason_night := "операция ночью".

Definition RiskLevel_value (l : RiskLevel) : string :=
  match l with LOW => "low" | MEDIUM => "medium" | HIGH => "high" end.

Definition Currency_value (c : Currency) : string :=
  match c with RUB => "RUB" | USD => "USD" | EUR => "EUR" | KZT => "KZT" | CNY => "CNY" end.

(** [RiskAnalyzer._account_id]: [getattr(obj, "id")] fails on anything that
    is not an account and the [except] turns that into the empty string. *)
Definition _account_id (o : PyObj) : M string :=
  match o with
  | PyAccount l => a <- read_account l ;; ret (acc_id a)
  | PyNone | PyObject _ => ret ""
  end.

(** [RiskAnalyzer._owner_name] *)
Definition _owner_name (o : PyObj) : M string :=
  match o with
  | PyAccount l => a <- read_account l ;; ret (name (owner a))
  | PyNone | PyObject _ => ret ""
  end.

Definition microseconds_per_day : Z := 86400 * 1000000.

(** [RiskAnalyzer._is_night]: the time of day of [dt] lies in
    [[night_from, night_to)], both given in microseconds after midnight.
    [dt.timetz()] is the time of day in the zone of [dt], which is UTC for
    the datetimes of the embedding. *)
Definition _is_night (cfg : RiskConfig) (dt : datetime) : bool :=
  let t := dt mod microseconds_per_day in
  (night_from cfg <=? t) && (t <? night_to cfg).

(** [if s:] on a string *)
Definition nonempty (s : string) : bool :=
  match s with EmptyString => false | _ => true end.

(** Rule 2 on the history of one sender: prune, append, count. *)
Definition pruned_history (cfg : RiskConfig) (now : datetime) (hist : list datetime) : list datetime :=
  let cutoff := now - timedelta_seconds (frequency_window_seconds cfg) in
  (List.filter (fun ts => cutoff <=? ts) hist ++ [now])%list.

Definition escalate_medium (l : RiskLevel) : RiskLevel :=
  match l with LOW => MEDIUM | _ => l end.

(** [RiskAnalyzer.assess]; the analyzer object is passed and returned. *)
Definition assess (ra : RiskAnalyzer) (amt_v : PyValue) (cur : Currency)
    (snd rcp : PyObj) (now : option datetime)
  : M (RiskAnalyzer * (RiskLevel * list string * list (string * ExtraValue))) :=
  now <- now_or_clock now ;;
  let cfg := risk_config ra in
  (* 1) large amount *)
  let amt := match amt_v with PyFloat q => q | PyNonNumeric _ _ => 0%Q end in
  let '(level, reasons) :=
    match large_amount_threshold cfg !! cur with
    | Some threshold =>
        if Qle_bool threshold amt then (HIGH, [reason_large_amount]) else (LOW, [])
    | None => (LOW, [])
    end in
  (* 2) frequent operations of the sender *)
  sender_id <- _account_id snd ;;
  let '(hist_map, level, reasons) :=
    if nonempty sender_id then
      let hist := pruned_history cfg now (default [] (_history ra !! sender_id)) in
      let hm := <[sender_id := hist]> (_history ra) in
      if frequency_limit cfg <=? Z.of_nat (length hist)
      then (hm, HIGH, (reasons ++ [reason_frequent])%list)
      else (hm, level, reasons)
    else (_history ra, level, reasons) in
  (* 3) new recipient for the sender *)
  rec_id <- _account_id rcp ;;
  let '(known_map, level, reasons) :=
    if nonempty sender_id then
      let known := default ∅ (_known_recipients ra !! sender_id) in
      if nonempty rec_id && negb (bool_decide (rec_id ∈ known))
      then (<[sender_id := {[rec_id]} ∪ known]> (_known_recipients ra),
            escalate_medium level, (reasons ++ [reason_new_recipient])%list)
      else (<[sender_id := known]> (_known_recipients ra), level, reasons)
    else (_known_recipients ra, level, reasons) in
  (* 4) night operation *)
  let '(level, reasons) :=
    if _is_night cfg now then (escalate_medium level, (reasons ++ [reason_night])%list)
    else (level, reasons) in
  owner_s <- _owner_name snd ;;
  owner_r <- _owner_name rcp ;;
  let ex :=
    [("sender_id", ExtraStr sender_id);
     ("recipient_id", ExtraStr rec_id);
     ("owner_name", ExtraStr (if nonempty owner_s then owner_s else owner_r));
     ("amount", ExtraNum amt);
     ("currency", ExtraStr (Currency_value cur));
     ("reasons", ExtraStr (String.concat ", " reasons));
     ("risk_level", ExtraStr (RiskLevel_value level))] in
  ret (mkRiskAnalyzer cfg hist_map known_map, (level, reasons, ex)).

(** ** [TransactionProcessor] *)

Definition default_ProcessorConfig : ProcessorConfig :=
  mkProcessorConfig 1%Q 2 ∅.

Definition base_rate (c : Currency) : Q :=
  match c with
  | RUB => 1 | USD => 100 | EUR => 110 | KZT => 21 # 100 | CNY => 14
  end%Q.

Definition all_currencies : list Currency := [RUB; USD; EUR; KZT; CNY].

(** [TransactionProcessor._default_rates] *)
Definition _default_rates : gmap (Currency * Currency) Q :=
  list_to_map
    (flat_map (fun a =>
       flat_map (fun b =>
         if Currency_eqb a b then [] else [((a, b), (base_rate a / base_rate b)%Q)])
         all_currencies)
       all_currencies).

(** What [TransactionProcessor.__init__] does to the configuration. *)
Definition TransactionProcessor_init (cfg : option ProcessorConfig) : ProcessorConfig :=
  let c := default default_ProcessorConfig cfg in
  if Nat.eqb (size (rates c)) 0
  then mkProcessorConfig (external_fee_fixed c) (max_retries c) _default_rates
  else c.

Definition msg_no_rate := "Нет курса для конвертации валют.".
Definition msg_acc_frozen := "Счёт заморожен.".
Definition msg_acc_closed := "Счёт закрыт.".
Definition msg_amount_number := "Сумма должна быть числом.".
Definition msg_amount_pos := "Сумма должна быть положительной.".
Definition msg_no_funds_transfer := "Недостаточно средств для перевода.".
Definition msg_credit_pos := "Сумма после комиссии должна быть положительной.".
Definition msg_bad_config := "Неверная конфигурация транзакции (нет отправителя и получателя).".
Definition msg_blocked := "Операция заблокирована службой рисков".
Definition msg_risk := "оценка риска: ".

(** [TransactionProcessor.convert] *)
Definition convert (amt : Q) (cur_from cur_to : Currency) : M Q :=
  if Currency_eqb cur_from cur_to then ret amt
  else
    w <- get ;;
    match rates (config w) !! (cur_from, cur_to) with
    | None => raise InvalidOperationError msg_no_rate
    | Some rate => ret (amt * rate)%Q
    end.

(** Reading attribute [attr] of an object that has none. *)
Definition no_attribute {A} (type_name attr : string) : M A :=
  raise AttributeError
    ("'" ++ type_name ++ "' object has no attribute '" ++ attr ++ "'")%string.

(** [TransactionProcessor._ensure_account_active] *)
Definition _ensure_account_active (acc : PyObj) : M unit :=
  match acc with
  | PyNone => ret tt
  | PyObject ty => no_attribute ty "status"
  | PyAccount l =>
      a <- read_account l ;;
      match status a with
      | FROZEN => raise AccountFrozenError msg_acc_frozen
      | CLOSED => raise AccountClosedError msg_acc_closed
      | ACTIVE => ret tt
      end
  end.

(** [float(v)] *)
Definition py_float (v : PyValue) : M Q :=
  match v with
  | PyFloat q => ret q
  | PyNonNumeric _ e => reraise e
  end.

Definition is_type_or_value_error (c : ExnClass) : bool :=
  match c with TypeError | ValueError => true | _ => false end.

Definition is_not_none (o : PyObj) : bool :=
  match o with PyNone => false | _ => true end.

(** The account behind an object whose attribute [attr] is about to be read. *)
Definition as_account (o : PyObj) (attr : string) : M nat :=
  match o with
  | PyAccount l => ret l
  | PyNone => no_attribute "NoneType" attr
  | PyObject ty => no_attribute ty attr
  end.

(** The two [withdraw] calls of the internal transfer: principal, then fee. *)
Definition withdraw_amount_then_fee (s : nat) (debit_amount debit_fee : Q) : M unit :=
  withdraw s debit_amount ;;;
  if Qltb 0 debit_fee then withdraw s debit_fee else ret tt.

(** [TransactionProcessor._process_transaction] *)
Definition _process_transaction (tx : nat) : M unit :=
  t <- read_tx tx ;;
  w <- get ;;
  match tx_type t with TRANSFER => ret tt end ;;;
  amt <- try_except (py_float (amount t)) is_type_or_value_error
           (fun _ => raise InvalidOperationError msg_amount_number) ;;
  (if Qle_bool amt 0 then raise InvalidOperationError msg_amount_pos else ret tt) ;;;
  (* fee, in the currency of the transaction *)
  fee0 <- py_float (if py_truthy (fee_fixed t) then fee_fixed t else PyFloat 0) ;;
  let fee_total :=
    if is_external t then (fee0 + external_fee_fixed (config w))%Q else fee0 in
  _ensure_account_active (sender t) ;;;
  _ensure_account_active (recipient t) ;;;
  if is_not_none (sender t) && is_not_none (recipient t) then
    (* case 1: internal transfer *)
    s <- as_account (sender t) "currency" ;;
    sa <- read_account s ;;
    debit <-
      (if negb (Currency_eqb (tx_currency t) (currency sa)) then
         debit_amount <- convert amt (tx_currency t) (currency sa) ;;
         debit_fee <- (if Qltb 0 fee_total
                       then convert fee_total (tx_currency t) (currency sa)
                       else ret 0%Q) ;;
         ret (debit_amount, debit_fee)
       else ret (amt, fee_total)) ;;
    let '(debit_amount, debit_fee) := debit in
    let total_debit := (debit_amount + debit_fee)%Q in
    (if is_premium sa then withdraw_amount_then_fee s debit_amount debit_fee
     else
       sb <- read_account s ;;
       if Qltb (_balance sb) total_debit
       then raise InsufficientFundsError msg_no_funds_transfer
       else withdraw_amount_then_fee s debit_amount debit_fee) ;;;
    r <- as_account (recipient t) "currency" ;;
    ra <- read_account r ;;
    credit_amount <-
      (if negb (Currency_eqb (tx_currency t) (currency ra))
       then convert amt (tx_currency t) (currency ra)
       else ret amt) ;;
    deposit r credit_amount
  else if negb (is_not_none (sender t)) && is_not_none (recipient t) then
    (* case 2: external credit *)
    let credit_amount := (amt - fee_total)%Q in
    if Qle_bool credit_amount 0 then raise InvalidOperationError msg_credit_pos
    else
      r <- as_account (recipient t) "currency" ;;
      ra <- read_account r ;;
      credit_amount <-
        (if negb (Currency_eqb (tx_currency t) (currency ra))
         then convert credit_amount (tx_currency t) (currency ra)
         else ret credit_amount) ;;
      deposit r credit_amount
  else if negb (is_not_none (recipient t)) && is_not_none (sender t) then
    (* case 3: external debit *)
    s <- as_account (sender t) "currency" ;;
    sa <- read_account s ;;
    debit_amount <-
      (if negb (Currency_eqb (tx_currency t) (currency sa))
       then convert (amt + fee_total)%Q (tx_currency t) (currency sa)
       else ret (amt + fee_total)%Q) ;;
    withdraw s debit_amount
  else raise InvalidOperationError msg_bad_config.

Definition append_error_log (s : string) : M unit :=
  modify (fun w => set_error_log (error_log w ++ [s])%list w).

Definition audit_level_of (l : RiskLevel) : AuditLevel :=
  match l with HIGH => ERROR | MEDIUM => WARNING | LOW => INFO end.

(** The risk stage of [process_next] (Day5): assess, write the audit
    record, block on [HIGH].  Returns [true] when the transaction was
    blocked. *)
Definition risk_stage (tx : nat) (now : option datetime) : M bool :=
  w <- get ;;
  match risk_analyzer w with
  | None => ret false
  | Some ra =>
      t <- read_tx tx ;;
      res <- assess ra (amount t) (tx_currency t) (sender t) (recipient t) now ;;
      let '(ra', (lvl, reasons, ex)) := res in
      modify (set_risk_analyzer (Some ra')) ;;;
      w1 <- get ;;
      match audit_log w1 with
      | None => ret tt
      | Some log =>
          log' <- AuditLog_add log (audit_level_of lvl)
                    (msg_risk ++ RiskLevel_value lvl)%string
                    (("tx_id", ExtraStr (tx_id t)) :: ex) ;;
          modify (set_audit_log (Some log'))
      end ;;;
      match lvl with
      | HIGH =>
          let reason :=
            match reasons with
            | [] => msg_blocked
            | _ => (msg_blocked ++ ": " ++ String.concat ", " reasons)%string
            end in
          mark_failed tx reason ;;; ret true
      | _ => ret false
      end
  end.

(** [except (AccountFrozenError, ...) as e:] in [process_next] *)
Definition on_terminal_error (tx : nat) (e : Exn) : M bool :=
  mark_failed tx (exn_msg e) ;;;
  t <- read_tx tx ;;
  append_error_log (tx_id t ++ ": " ++ exn_name (exn_class e) ++ ": " ++ exn_msg e)%string ;;;
  ret true.

(** [except Exception as e:] in [process_next] *)
Definition on_transient_error (tx : nat) (e : Exn) : M bool :=
  t <- read_tx tx ;;
  let n := attempts t + 1 in
  write_tx tx (set_attempts n t) ;;;
  w <- get ;;
  (if max_retries (config w) <? n then
     mark_failed tx ("temporary_error: " ++ exn_msg e)%string ;;;
     append_error_log (tx_id t ++ ": temporary_error: " ++ exn_msg e)%string
   else
     let delay := 1 * n in
     now <- datetime_now ;;
     t1 <- read_tx tx ;;
     write_tx tx (set_updated_at now t1) ;;;
     requeue tx delay) ;;;
  ret true.

(** What [process_next] does with the transaction it has popped: the risk
    stage, then the [try] statement. *)
Definition process_popped (tx : nat) (now : option datetime) : M bool :=
  blocked <- risk_stage tx now ;;
  if blocked then ret true
  else
    try_except
      (_process_transaction tx ;;; mark_processed tx ;;; ret true)
      (fun _ => true)
      (fun e => if is_terminal (exn_class e)
                then on_terminal_error tx e
                else on_transient_error tx e).

(** [TransactionProcessor.process_next] *)
Definition process_next (now : option datetime) : M bool :=
  popped <- pop_ready now ;;
  match popped with
  | None => ret false
  | Some tx => process_popped tx now
  end.

(** [TransactionProcessor.run_all] *)
Fixpoint run_all (now : option datetime) (safety_limit : nat) : M unit :=
  match safety_limit with
  | O => ret tt
  | S n =>
      processed <- process_next now ;;
      if processed then run_all now n else ret tt
  end.

(** Running a computation: its outcome and the world it leaves. *)
Definition run {A} (m : M A) (w : World) : Outcome A * World := m w.
Definition exec {A} (m : M A) (w : World) : World := snd (m w).
Definition outcome {A} (m : M A) (w : World) : Outcome A := fst (m w).

(** ** Building accounts, transactions and worlds *)

Definition no_owner : Owner := mkOwner "" "".

Definition bank_account (ident : string) (bal : Q) (st : AccountStatus) (cur : Currency) : Account :=
  mkAccount ident no_owner bal st cur BankAccount.


(** [Transaction(tx_id, TRANSFER, amount, currency, sender, recipient,
    fee_fixed, scheduled_at, priority, is_external)], the technical fields
    at their defaults (the two clock defaults taken as [0]). *)
Definition new_transaction (ident : string) (amt : PyValue) (cur : Currency)
    (snd rcp : PyObj) (fee : PyValue) (sched : datetime) (prio : Z) (ext : bool) : Transaction :=
  mkTransaction ident TRANSFER amt cur snd rcp fee sched prio ext
                PENDING None 0 None 0 0.

Definition empty_queue : TransactionQueue := mkQueue [] ∅ 0.

(** A world with a fresh queue and a processor built by
    [TransactionProcessor(queue, cfg)], no audit log, no risk analyzer. *)
Definition fresh_world (accs : nat -> Account) (txs : nat -> Transaction)
    (cfg : option ProcessorConfig) (clock : nat -> datetime) : World :=
  mkWorld accs txs empty_queue (TransactionProcessor_init cfg) [] None None clock 0.

(** ** Vocabulary of the statements *)

(** A computation keeps a relation between the world before and after,
    whatever its outcome. *)
Definition preserves {A} (R : World -> World -> Prop) (m : M A) : Prop :=
  forall w, R w (snd (m w)).

(** Footprints: the relation tolerates any change of one component. *)
Class AllowsAccounts (R : World -> World -> Prop) :=
  allows_accounts : forall w f, R w (set_accounts f w).
Class AllowsTransactions (R : World -> World -> Prop) :=
  allows_transactions : forall w f, R w (set_transactions f w).
Class AllowsTransaction (R : World -> World -> Prop) (l : nat) :=
  allows_transaction : forall w t, R w (set_transactions (upd (transactions w) l t) w).
Class AllowsQueue (R : World -> World -> Prop) :=
  allows_queue : forall w q, R w (set_queue q w).
Class AllowsErrorLog (R : World -> World -> Prop) :=
  allows_error_log : forall w l, R w (set_error_log l w).
Class AllowsAuditLog (R : World -> World -> Prop) :=
  allows_audit_log : forall w l, R w (set_audit_log l w).
Class AllowsRiskAnalyzer (R : World -> World -> Prop) :=
  allows_risk_analyzer : forall w r, R w (set_risk_analyzer r w).
Class AllowsClock (R : World -> World -> Prop) :=
  allows_clock : forall w n, R w (set_clock_reads n w).

(** The component [f] of the world is left as it was. *)
Definition same {B} (f : World -> B) : World -> World -> Prop :=
  fun w w' => f w' = f w.

(** Every entry of the id map of the queue is still there, unchanged. *)
Definition items_kept : World -> World -> Prop :=
  fun w w' => forall k v, _items (queue w) !! k = Some v -> _items (queue w') !! k = Some v.

(** The heap discipline: ascending in the order of [_QueueItem]. *)
Definition heap_sorted (h : list _QueueItem) : Prop :=
  StronglySorted (fun a b => item_ltb b a = false) h.

(** The priority an entry was pushed with. *)
Definition qi_priority (e : _QueueItem) : Z := - neg_priority e.

(** Sortedness of the heap, once there, stays. *)
Definition sorted_kept : World -> World -> Prop :=
  fun w w' => heap_sorted (_heap (queue w)) -> heap_sorted (_heap (queue w')).

(** The time an operation called with [now] works with, and the world
    after [now or datetime.now(timezone.utc)]. *)
Definition time_of (now : option datetime) (w : World) : datetime :=
  match now with Some t => t | None => utc_clock w (clock_reads w) end.

Definition tick (now : option datetime) (w : World) : World :=
  match now with Some _ => w | None => set_clock_reads (S (clock_reads w)) w end.

(** A computation that returns normally in every world. *)
Definition returns {A} (m : M A) : Prop :=
  forall w, exists a, fst (m w) = Return a.

(** The factor [convert] multiplies by, when there is one. *)
Definition conversion_rate (cfg : ProcessorConfig) (cur_from cur_to : Currency) : option Q :=
  if Currency_eqb cur_from cur_to then Some 1%Q else rates cfg !! (cur_from, cur_to).

(** The total fee of a transaction whose fixed fee is the number [fee]: the
    external surcharge is added when the transaction is flagged external. *)
Definition fee_total (cfg : ProcessorConfig) (t : Transaction) (fee : Q) : Q :=
  if is_external t then (fee + external_fee_fixed cfg)%Q else fee.

(** Only the transaction object [l] may have changed. *)
Definition only_tx (l : nat) : World -> World -> Prop :=
  fun w w' => forall k, k <> l -> transactions w' k = transactions w k.

(** The moves of a status that the queue and the processor make. *)
Definition lifecycle_step (s s' : TransactionStatus) : Prop :=
  match s with
  | PENDING => True
  | FAILED => s' = FAILED \/ s' = CANCELLED
  | PROCESSED => s' = PROCESSED
  | CANCELLED => s' = CANCELLED
  end.

Definition lifecycle : World -> World -> Prop :=
  fun w w' => forall l,
      lifecycle_step (tx_status (transactions w l)) (tx_status (transactions w' l)).

(** The operations a caller has on the queue and the processor. *)
Inductive Op :=
| OpAdd (tx : nat)
| OpCancel (id : string) (reason : string)
| OpPopReady (now : option datetime)
| OpRequeue (tx : nat) (delay_seconds : Z)
| OpProcessNext (now : option datetime)
| OpRunAll (now : option datetime) (safety_limit : nat).

Definition step (o : Op) (w : World) : World :=
  match o with
  | OpAdd tx => exec (add tx) w
  | OpCancel id reason => exec (cancel id reason) w
  | OpPopReady now => exec (pop_ready now) w
  | OpRequeue tx d => exec (requeue tx d) w
  | OpProcessNext now => exec (process_next now) w
  | OpRunAll now n => exec (run_all now n) w
  end.

Definition steps (ops : list Op) (w : World) : World :=
  fold_left (fun w o => step o w) ops w.

(** ** Scenarios *)

(** [RiskConfig()] with its defaults; the night window is 00:00 to 05:00. *)
Definition default_RiskConfig : RiskConfig :=
  mkRiskConfig
    (<[RUB := 100000%Q]> (<[USD := 2000%Q]> (<[EUR := 2000%Q]>
       (<[KZT := 2000000%Q]> (<[CNY := 15000%Q]> ∅)))))
    60 3 0 (timedelta_seconds (5 * 3600)).

(** [RiskAnalyzer()] *)
Definition new_RiskAnalyzer : RiskAnalyzer := mkRiskAnalyzer default_RiskConfig ∅ ∅.

(** Two plain accounts: [0] is A, 1000 RUB; every other reference is B, 0 USD. *)
Definition accounts_A_B (l : nat) : Account :=
  match l with
  | O => bank_account "A" 1000 ACTIVE RUB
  | _ => bank_account "B" 0 ACTIVE USD
  end.

(** Transaction t1: 100 RUB from A to B, no fee, due at time 0, priority 10. *)
Definition transfer_A_B (l : nat) : Transaction :=
  new_transaction "t1" (PyFloat 100) RUB (PyAccount 0) (PyAccount 1) (PyFloat 0) 0 10 false.

Definition world_transfer : World :=
  fresh_world accounts_A_B transfer_A_B None (fun _ => 0).

(** Two transactions of A: [0] is "urgent", priority 10, due at second 5;
    every other reference is "early", priority 0, due at second 3. *)
Definition urgent_and_early (l : nat) : Transaction :=
  match l with
  | O => new_transaction "urgent" (PyFloat 1) RUB (PyAccount 0) PyNone (PyFloat 0)
           (timedelta_seconds 5) 10 false
  | _ => new_transaction "early" (PyFloat 1) RUB (PyAccount 0) PyNone (PyFloat 0)
           (timedelta_seconds 3) 0 false
  end.

Definition world_urgent_and_early : World :=
  steps [OpAdd 0; OpAdd 1] (fresh_world accounts_A_B urgent_and_early None (fun _ => 0)).

(** The same two transactions, both due at second 3. *)
Definition urgent_and_plain (l : nat) : Transaction :=
  match l with
  | O => new_transaction "urgent" (PyFloat 1) RUB (PyAccount 0) PyNone (PyFloat 0)
           (timedelta_seconds 3) 10 false
  | _ => new_transaction "plain" (PyFloat 1) RUB (PyAccount 0) PyNone (PyFloat 0)
           (timedelta_seconds 3) 0 false
  end.

Definition world_urgent_and_plain : World :=
  steps [OpAdd 1; OpAdd 0] (fresh_world accounts_A_B urgent_and_plain None (fun _ => 0)).

(** t1 is added, then requeued with a delay of 100 seconds while its first
    heap entry is still queued; the wall clock shows second 50. *)
Definition world_requeued : World :=
  steps [OpAdd 0; OpRequeue 0 100]
        (fresh_world accounts_A_B transfer_A_B None (fun _ => timedelta_seconds 50)).

(** A sender without money: [0] holds 0 RUB. *)
Definition accounts_poor_A (l : nat) : Account :=
  match l with
  | O => bank_account "A" 0 ACTIVE RUB
  | _ => bank_account "B" 0 ACTIVE USD
  end.

(** t1 is added and processed; the execution fails for want of funds. *)
Definition world_failed : World :=
  steps [OpAdd 0; OpProcessNext (Some 0)]
        (fresh_world accounts_poor_A transfer_A_B None (fun _ => 0)).

Definition world_poor_queued : World :=
  steps [OpAdd 0] (fresh_world accounts_poor_A transfer_A_B None (fun _ => 0)).

(** t1 with a [fee_fixed] that is the string 'abc': [float()] raises
    ValueError on it, which is none of the terminal errors. *)
Definition transfer_bad_fee (l : nat) : Transaction :=
  new_transaction "t1" (PyFloat 100) RUB (PyAccount 0) (PyAccount 1)
    (PyNonNumeric true (mkExn ValueError "could not convert string to float: 'abc'"))
    0 10 false.

(** The transaction is queued; the wall clock shows second 1000. *)
Definition world_bad_fee : World :=
  steps [OpAdd 0]
        (fresh_world accounts_A_B transfer_bad_fee None (fun _ => timedelta_seconds 1000)).

(** An external credit of 10 RUB with a fixed fee of 20 RUB to a frozen
    account. *)
Definition accounts_frozen (l : nat) : Account := bank_account "F" 100 FROZEN RUB.

Definition credit_fee_20 (l : nat) : Transaction :=
  new_transaction "c1" (PyFloat 10) RUB PyNone (PyAccount 0) (PyFloat 20) 0 0 false.

Definition world_frozen_credit : World :=
  fresh_world accounts_frozen credit_fee_20 None (fun _ => 0).








(** ** Vocabulary of the further properties *)

(** Two states of an account object that differ at most in the balance. *)
Definition same_but_balance (a a' : Account) : Prop :=
  acc_id a' = acc_id a /\ owner a' = owner a /\ status a' = status a
  /\ currency a' = currency a /\ kind a' = kind a.

Definition accounts_keep_shape : World -> World -> Prop :=
  fun w w' => forall l, same_but_balance (accounts w l) (accounts w' l).

(** The floor each class of account puts under its balance: zero,
    [min_balance], or minus [overdraft_limit]. *)
Definition within_limits (a : Account) : Prop :=
  match kind a with
  | BankAccount | InvestmentAccount _ _ _ => (0 <= _balance a)%Q
  | SavingsAccount min_bal _ => (min_bal <= _balance a)%Q
  | PremiumAccount overdraft _ => (- overdraft <= _balance a)%Q
  end.

Definition limits_kept : World -> World -> Prop :=
  fun w w' => (forall l, within_limits (accounts w l)) ->
              forall l, within_limits (accounts w' l).

(** Accounts that are frozen or closed are left exactly as they are. *)
Definition inactive_untouched : World -> World -> Prop :=
  fun w w' => forall l, status (accounts w l) <> ACTIVE -> accounts w' l = accounts w l.

(** The failure reason [process_next] gives a transaction blocked by the
    risk stage. *)
Definition blocked_reason (reasons : list string) : string :=
  match reasons with
  | [] => msg_blocked
  | _ => (msg_blocked ++ ": " ++ String.concat ", " reasons)%string
  end.

(** A heap entry that [pop_ready] throws away: its id is not in the id map,
    or its transaction is no longer pending. *)
Definition stale_entry (w : World) (e : _QueueItem) : Prop :=
  match _items (queue w) !! qi_tx_id e with
  | None => True
  | Some tx => tx_status (transactions w tx) <> PENDING
  end.

(** What a transaction says, as opposed to what has happened to it: the
    fields that no method of the queue, the processor or the transaction
    assigns. *)
Definition same_order (t t' : Transaction) : Prop :=
  tx_id t' = tx_id t /\ tx_type t' = tx_type t /\ amount t' = amount t
  /\ tx_currency t' = tx_currency t /\ sender t' = sender t
  /\ recipient t' = recipient t /\ fee_fixed t' = fee_fixed t
  /\ priority t' = priority t /\ is_external t' = is_external t
  /\ created_at t' = created_at t.

Definition orders_kept : World -> World -> Prop :=
  fun w w' => forall l, same_order (transactions w l) (transactions w' l).

Global Instance TransactionStatus_eq_dec : EqDecision TransactionStatus.
Proof. solve_decision. Defined.

(** The entries of the id map whose transaction is pending.  The id map is
    kept without the insertion order of the [dict], so they come in no
    particular order. *)
Definition pending_entries (w : World) : list (string * nat) :=
  filter (fun kv => tx_status (transactions w kv.2) = PENDING)
         (map_to_list (_items (queue w))).

(** [TransactionQueue.__len__] *)
Definition __len__ : M Z :=
  w <- get ;;
  ret (Z.of_nat (length (pending_entries w))).

(** [TransactionQueue.list_pending], up to the order of the ids. *)
Definition list_pending : M (list string) :=
  w <- get ;;
  ret ((pending_entries w).*1).

(** Every key of the id map is the id of the transaction it maps to. *)
Definition ids_agree (w : World) : Prop :=
  forall k tx, _items (queue w) !! k = Some tx -> tx_id (transactions w tx) = k.

(** The four signals of [RiskAnalyzer.assess], each as the condition the
    code tests: the sender and the recipient are given by the ids that
    [_account_id] finds on them. *)
Definition large_amount_signal (cfg : RiskConfig) (amt_v : PyValue) (cur : Currency) : bool :=
  match large_amount_threshold cfg !! cur with
  | Some threshold =>
      Qle_bool threshold (match amt_v with PyFloat q => q | PyNonNumeric _ _ => 0%Q end)
  | None => false
  end.

Definition frequent_signal (ra : RiskAnalyzer) (sender_id : string) (now : datetime) : bool :=
  nonempty sender_id
  && (frequency_limit (risk_config ra)
      <=? Z.of_nat (length (pruned_history (risk_config ra) now
                              (default [] (_history ra !! sender_id))))).

Definition new_recipient_signal (ra : RiskAnalyzer) (sender_id rec_id : string) : bool :=
  nonempty sender_id && nonempty rec_id
  && negb (bool_decide (rec_id ∈ default ∅ (_known_recipients ra !! sender_id))).

(** ** The reports of [AuditLog] ([day5/model/audit.py]) *)

Definition AuditLevel_eqb (a b : AuditLevel) : bool :=
  match a, b with
  | INFO, INFO | WARNING, WARNING | ERROR, ERROR => true
  | _, _ => false
  end.

(** [AuditLog.filter]; the predicate is taken to return a [bool]. *)
Definition AuditLog_filter (log : AuditLog) (lvl : option AuditLevel)
    (predicate : option (AuditRecord -> bool)) : list AuditRecord :=
  let items := records log in
  let items :=
    match lvl with
    | Some l => List.filter (fun r => AuditLevel_eqb (level r) l) items
    | None => items
    end in
  match predicate with
  | Some p => List.filter p items
  | None => items
  end.

(** [AuditLog.get_suspicious_operations] *)
Definition get_suspicious_operations (log : AuditLog) : list AuditRecord :=
  List.filter (fun r => AuditLevel_eqb (level r) WARNING || AuditLevel_eqb (level r) ERROR)
    (records log).

(** The character [":"], code 58. *)
Definition colon : Ascii.ascii := Ascii.ascii_of_nat 58.

(** [s.split(":", 1)[0]]: what stands before the first colon, all of [s]
    when it has none. *)
Fixpoint before_colon (s : string) : string :=
  match s with
  | EmptyString => EmptyString
  | String c s' => if Ascii.eqb c colon then EmptyString else String c (before_colon s')
  end.

(** [AuditLog.get_error_statistics] *)
Definition get_error_statistics (log : AuditLog) : gmap string Z :=
  fold_left
    (fun stats r =>
       let key := before_colon (message r) in
       <[key := default 0 (stats !! key) + 1]> stats)
    (AuditLog_filter log (Some ERROR) None) ∅.

(** The ERROR records of a list whose message begins with [key] up to the
    first colon. *)
Definition errors_under (key : string) (rs : list AuditRecord) : list AuditRecord :=
  List.filter (fun r => AuditLevel_eqb (level r) ERROR
                        && String.eqb (before_colon (message r)) key) rs.

(** The two logs of the processor after are the logs before, with entries
    added at the end; a processor without audit log stays without. *)
Definition logs_grow : World -> World -> Prop :=
  fun w w' =>
    (exists l, error_log w' = (error_log w ++ l)%list)
    /\ match audit_log w with
       | Some log => exists rs, audit_log w' = Some (mkAuditLog (records log ++ rs)%list)
       | None => audit_log w' = None
       end.

(** ** [SavingsAccount.apply_monthly_interest] ([day2/model/savings_account.py]) *)

From Stdlib Require Qpower.





(** ** Further scenarios *)

(** t1 with an amount of zero. *)
Definition transfer_zero (l : nat) : Transaction :=
  new_transaction "t1" (PyFloat 0) RUB (PyAccount 0) (PyAccount 1) (PyFloat 0) 0 10 false.

Definition world_zero_amount : World :=
  fresh_world accounts_A_B transfer_zero None (fun _ => 0).

(** 100 RUB from nobody to nobody. *)
Definition transfer_nobody (l : nat) : Transaction :=
  new_transaction "n1" (PyFloat 100) RUB PyNone PyNone (PyFloat 0) 0 0 false.

Definition world_nobody : World :=
  fresh_world accounts_A_B transfer_nobody None (fun _ => 0).


(** 200000 RUB from A to B, above the threshold for RUB; the processor has
    an empty audit log and a fresh risk analyzer, and the transaction is
    queued. *)
Definition transfer_large (l : nat) : Transaction :=
  new_transaction "big" (PyFloat 200000) RUB (PyAccount 0) (PyAccount 1) (PyFloat 0) 0 0 false.

Definition world_risky : World :=
  steps [OpAdd 0]
    (mkWorld accounts_A_B transfer_large empty_queue (TransactionProcessor_init None) []
       (Some (mkAuditLog [])) (Some new_RiskAnalyzer) (fun _ => 0) 0).

(** * Properties *)

(** ** The monad *)

Lemma bind_Return_inv {A B} (m : M A) (k : A -> M B) w b w' :
  bind m k w = (Return b, w') ->
  exists a w1, m w = (Return a, w1) /\ k a w1 = (Return b, w').
Proof.
  unfold bind. destruct (m w) as [[a|e] w1]; intros H.
  - exists a, w1. split; [reflexivity | exact H].
  - discriminate H.
Qed.

Lemma bind_Return {A B} (m : M A) (k : A -> M B) w a w1 :
  m w = (Return a, w1) -> bind m k w = k a w1.
Proof. unfold bind. intros ->. reflexivity. Qed.

Lemma bind_Raise {A B} (m : M A) (k : A -> M B) w e w1 :
  m w = (Raise e, w1) -> bind m k w = (Raise e, w1).
Proof. unfold bind. intros ->. reflexivity. Qed.

(** ** Frame rules *)

Section Preserves.
Context (R : World -> World -> Prop) `{!PreOrder R}.

Lemma preserves_ret {A} (a : A) : preserves R (ret a).
Proof. intros w. reflexivity. Qed.

Lemma preserves_raise {A} c msg : preserves R (@raise A c msg).
Proof. intros w. reflexivity. Qed.

Lemma preserves_reraise {A} e : preserves R (@reraise A e).
Proof. intros w. reflexivity. Qed.

Lemma preserves_get : preserves R get.
Proof. intros w. reflexivity. Qed.

Lemma preserves_read_account l : preserves R (read_account l).
Proof. intros w. reflexivity. Qed.

Lemma preserves_read_tx l : preserves R (read_tx l).
Proof. intros w. reflexivity. Qed.

Lemma preserves_bind {A B} (m : M A) (k : A -> M B) :
  preserves R m -> (forall a, preserves R (k a)) -> preserves R (bind m k).
Proof.
  intros Hm Hk w. unfold bind. specialize (Hm w).
  destruct (m w) as [[a|e] w1]; simpl in *.
  - etransitivity; [exact Hm | apply Hk].
  - exact Hm.
Qed.

Lemma preserves_try_except {A} (m : M A) handles h :
  preserves R m -> (forall e, preserves R (h e)) -> preserves R (try_except m handles h).
Proof.
  intros Hm Hh w. unfold try_except. specialize (Hm w).
  destruct (m w) as [[a|e] w1]; simpl in *.
  - exact Hm.
  - destruct (handles (exn_class e)); simpl.
    + etransitivity; [exact Hm | apply Hh].
    + exact Hm.
Qed.

Lemma preserves_modify (f : World -> World) :
  (forall w, R w (f w)) -> preserves R (modify f).
Proof. intros Hf w. apply Hf. Qed.
End Preserves.

Global Instance same_preorder {B} (f : World -> B) : PreOrder (same f).
Proof.
  split.
  - intros w. reflexivity.
  - intros a b c Hab Hbc. unfold same in *. congruence.
Qed.

Create HintDb frame.

Global Instance allows_transaction_of_all R l :
  AllowsTransactions R -> AllowsTransaction R l.
Proof. intros H w t. apply H. Qed.

Section Primitives.
Context (R : World -> World -> Prop) `{!PreOrder R}.

Lemma preserves_write_account `{!AllowsAccounts R} l a : preserves R (write_account l a).
Proof. apply preserves_modify. intros w. apply allows_accounts. Qed.

Lemma preserves_write_tx l `{!AllowsTransaction R l} t : preserves R (write_tx l t).
Proof. apply preserves_modify. intros w. apply allows_transaction. Qed.

Lemma preserves_set_queue `{!AllowsQueue R} q : preserves R (modify (set_queue q)).
Proof. apply preserves_modify. intros w. apply allows_queue. Qed.

Lemma preserves_set_audit_log `{!AllowsAuditLog R} l : preserves R (modify (set_audit_log l)).
Proof. apply preserves_modify. intros w. apply allows_audit_log. Qed.

Lemma preserves_set_risk_analyzer `{!AllowsRiskAnalyzer R} r :
  preserves R (modify (set_risk_analyzer r)).
Proof. apply preserves_modify. intros w. apply allows_risk_analyzer. Qed.

Lemma preserves_append_error_log `{!AllowsErrorLog R} s : preserves R (append_error_log s).
Proof. apply preserves_modify. intros w. apply allows_error_log. Qed.

Lemma preserves_datetime_now `{!AllowsClock R} : preserves R datetime_now.
Proof. intros w. apply allows_clock. Qed.

Lemma preserves_now_or_clock `{!AllowsClock R} now : preserves R (now_or_clock now).
Proof. destruct now; [apply preserves_ret; assumption | apply preserves_datetime_now]. Qed.
End Primitives.

(** One step of a frame proof: follow the structure of the computation. *)
Ltac frame_step :=
  lazymatch goal with
  | |- preserves _ (bind _ _) => apply preserves_bind; [ typeclasses eauto | | intros ? ]
  | |- preserves _ (try_except _ _ _) =>
      apply preserves_try_except; [ typeclasses eauto | | intros ? ]
  | |- preserves _ (ret _) => apply preserves_ret; typeclasses eauto
  | |- preserves _ (raise _ _) => apply preserves_raise; typeclasses eauto
  | |- preserves _ (reraise _) => apply preserves_reraise; typeclasses eauto
  | |- preserves _ (no_attribute _ _) => apply preserves_raise; typeclasses eauto
  | |- preserves _ get => apply preserves_get; typeclasses eauto
  | |- preserves _ (read_account _) => apply preserves_read_account; typeclasses eauto
  | |- preserves _ (read_tx _) => apply preserves_read_tx; typeclasses eauto
  | |- preserves _ (write_account _ _) => apply preserves_write_account; typeclasses eauto
  | |- preserves _ (write_tx _ _) => apply preserves_write_tx; typeclasses eauto
  | |- preserves _ (modify (set_queue _)) => apply preserves_set_queue; typeclasses eauto
  | |- preserves _ (modify (set_audit_log _)) =>
      apply preserves_set_audit_log; typeclasses eauto
  | |- preserves _ (modify (set_risk_analyzer _)) =>
      apply preserves_set_risk_analyzer; typeclasses eauto
  | |- preserves _ (append_error_log _) => apply preserves_append_error_log; typeclasses eauto
  | |- preserves _ datetime_now => apply preserves_datetime_now; typeclasses eauto
  | |- preserves _ (now_or_clock _) => apply preserves_now_or_clock; typeclasses eauto
  | |- preserves _ (match ?x with _ => _ end) => destruct x
  | |- preserves _ ((fun _ => _) _) => cbv beta
  | |- preserves _ _ => solve [eauto with frame typeclass_instances]
  end.

Ltac frame := repeat frame_step.

Section AccountFrames.
Context (R : World -> World -> Prop) `{!PreOrder R} `{!AllowsAccounts R}.

Lemma _ensure_active_frame l : preserves R (_ensure_active l).
Proof. unfold _ensure_active. frame. Qed.

Lemma _validate_amount_frame a : preserves R (_validate_amount a).
Proof. unfold _validate_amount. frame. Qed.

Hint Resolve _ensure_active_frame _validate_amount_frame : frame.

Lemma deposit_frame l a : preserves R (deposit l a).
Proof. unfold deposit. frame. Qed.

Lemma withdraw_frame l a : preserves R (withdraw l a).
Proof.
  unfold withdraw, BankAccount_withdraw, SavingsAccount_withdraw,
    PremiumAccount_withdraw.
  frame.
Qed.
End AccountFrames.

#[export] Hint Resolve deposit_frame withdraw_frame : frame.

Section ProcessorFrames.
Context (R : World -> World -> Prop) `{!PreOrder R}.

Lemma convert_frame a c1 c2 : preserves R (convert a c1 c2).
Proof. unfold convert. frame. Qed.

Lemma _ensure_account_active_frame o : preserves R (_ensure_account_active o).
Proof. unfold _ensure_account_active. frame. Qed.

Lemma py_float_frame v : preserves R (py_float v).
Proof. unfold py_float. frame. Qed.

Lemma as_account_frame o attr : preserves R (as_account o attr).
Proof. unfold as_account. frame. Qed.

Hint Resolve convert_frame _ensure_account_active_frame py_float_frame
  as_account_frame : frame.

(** Executing a transaction touches nothing but accounts. *)
Lemma _process_transaction_frame `{!AllowsAccounts R} tx :
  preserves R (_process_transaction tx).
Proof. unfold _process_transaction, withdraw_amount_then_fee. frame. Qed.

(** The lifecycle methods touch the transaction and read the clock. *)
Lemma mark_failed_frame tx `{!AllowsTransaction R tx} `{!AllowsClock R} reason :
  preserves R (mark_failed tx reason).
Proof. unfold mark_failed. frame. Qed.

Lemma mark_processed_frame tx `{!AllowsTransaction R tx} `{!AllowsClock R} :
  preserves R (mark_processed tx).
Proof. unfold mark_processed. frame. Qed.

Lemma Transaction_cancel_frame tx `{!AllowsTransaction R tx} `{!AllowsClock R} reason :
  preserves R (Transaction_cancel tx reason).
Proof. unfold Transaction_cancel. frame. Qed.

Lemma AuditLog_add_frame `{!AllowsClock R} log lvl msg ex :
  preserves R (AuditLog_add log lvl msg ex).
Proof. unfold AuditLog_add. frame. Qed.

Lemma _account_id_frame o : preserves R (_account_id o).
Proof. unfold _account_id. frame. Qed.

Lemma _owner_name_frame o : preserves R (_owner_name o).
Proof. unfold _owner_name. frame. Qed.

Hint Resolve _account_id_frame _owner_name_frame : frame.

Lemma assess_frame `{!AllowsClock R} ra a c s r now :
  preserves R (assess ra a c s r now).
Proof. unfold assess. frame. Qed.

Hint Resolve mark_failed_frame mark_processed_frame Transaction_cancel_frame
  AuditLog_add_frame assess_frame _process_transaction_frame : frame.

Lemma risk_stage_frame tx `{!AllowsTransaction R tx} `{!AllowsClock R}
    `{!AllowsAuditLog R} `{!AllowsRiskAnalyzer R} now :
  preserves R (risk_stage tx now).
Proof. unfold risk_stage. frame. Qed.

Lemma cancel_frame `{!AllowsTransactions R} `{!AllowsClock R} id reason :
  preserves R (cancel id reason).
Proof. unfold cancel. frame. Qed.

(** The queue operations, for relations that do not look at the queue. *)
Lemma add_frame `{!AllowsQueue R} tx : preserves R (add tx).
Proof. unfold add. frame. Qed.

Lemma pop_ready_frame `{!AllowsQueue R} `{!AllowsClock R} now :
  preserves R (pop_ready now).
Proof. unfold pop_ready. frame. Qed.

Lemma requeue_frame tx `{!AllowsQueue R} `{!AllowsTransaction R tx} `{!AllowsClock R} d :
  preserves R (requeue tx d).
Proof. unfold requeue. frame. Qed.

Hint Resolve risk_stage_frame : frame.

(** The work on a popped transaction touches no other transaction. *)
Lemma process_popped_frame tx `{!AllowsAccounts R} `{!AllowsTransaction R tx}
    `{!AllowsClock R} `{!AllowsAuditLog R} `{!AllowsRiskAnalyzer R}
    `{!AllowsErrorLog R} now :
  (forall d, preserves R (requeue tx d)) ->
  preserves R (process_popped tx now).
Proof.
  intros Hreq. unfold process_popped, on_terminal_error, on_transient_error. frame.
Qed.

(** [process_next] and [run_all], given what the two queue operations
    they call do to the relation. *)
Lemma process_next_frame `{!AllowsAccounts R} `{!AllowsTransactions R} `{!AllowsClock R}
    `{!AllowsAuditLog R} `{!AllowsRiskAnalyzer R} `{!AllowsErrorLog R} now :
  (forall n, preserves R (pop_ready n)) ->
  (forall tx d, preserves R (requeue tx d)) ->
  preserves R (process_next now).
Proof.
  intros Hpop Hreq. unfold process_next. frame. apply process_popped_frame; auto.
  typeclasses eauto.
Qed.

Lemma run_all_frame `{!AllowsAccounts R} `{!AllowsTransactions R} `{!AllowsClock R}
    `{!AllowsAuditLog R} `{!AllowsRiskAnalyzer R} `{!AllowsErrorLog R} now n :
  (forall n, preserves R (pop_ready n)) ->
  (forall tx d, preserves R (requeue tx d)) ->
  preserves R (run_all now n).
Proof.
  intros Hpop Hreq. induction n as [|n IH]; simpl.
  - apply preserves_ret; assumption.
  - apply preserves_bind; [assumption | now apply process_next_frame | ].
    intros [|]; [exact IH | apply preserves_ret; assumption].
Qed.
End ProcessorFrames.

#[export] Hint Resolve convert_frame _ensure_account_active_frame py_float_frame
  as_account_frame _process_transaction_frame mark_failed_frame mark_processed_frame
  Transaction_cancel_frame AuditLog_add_frame assess_frame risk_stage_frame
  cancel_frame add_frame pop_ready_frame requeue_frame : frame.

#[export] Hint Extern 1 (AllowsAccounts (same _)) =>
  (intros ? ?; reflexivity) : typeclass_instances.
#[export] Hint Extern 1 (AllowsTransactions (same _)) =>
  (intros ? ?; reflexivity) : typeclass_instances.
#[export] Hint Extern 1 (AllowsQueue (same _)) =>
  (intros ? ?; reflexivity) : typeclass_instances.
#[export] Hint Extern 1 (AllowsErrorLog (same _)) =>
  (intros ? ?; reflexivity) : typeclass_instances.
#[export] Hint Extern 1 (AllowsAuditLog (same _)) =>
  (intros ? ?; reflexivity) : typeclass_instances.
#[export] Hint Extern 1 (AllowsRiskAnalyzer (same _)) =>
  (intros ? ?; reflexivity) : typeclass_instances.
#[export] Hint Extern 1 (AllowsClock (same _)) =>
  (intros ? ?; reflexivity) : typeclass_instances.

(** ** The id map of the queue only grows *)

Global Instance items_kept_preorder : PreOrder items_kept.
Proof.
  split.
  - intros w k v H. exact H.
  - intros a b c Hab Hbc k v H. apply Hbc, Hab, H.
Qed.

Global Instance items_kept_accounts : AllowsAccounts items_kept.
Proof. intros w f k v H. exact H. Qed.
Global Instance items_kept_transactions : AllowsTransactions items_kept.
Proof. intros w f k v H. exact H. Qed.
Global Instance items_kept_error_log : AllowsErrorLog items_kept.
Proof. intros w f k v H. exact H. Qed.
Global Instance items_kept_audit_log : AllowsAuditLog items_kept.
Proof. intros w f k v H. exact H. Qed.
Global Instance items_kept_risk_analyzer : AllowsRiskAnalyzer items_kept.
Proof. intros w f k v H. exact H. Qed.
Global Instance items_kept_clock : AllowsClock items_kept.
Proof. intros w f k v H. exact H. Qed.

Lemma add_fresh w tx :
  _items (queue w) !! tx_id (transactions w tx) = None ->
  add tx w =
    (Return tt,
     set_queue (mkQueue (heappush (_heap (queue w))
                           (item_of (transactions w tx) (_order_seq (queue w) + 1)))
                        (<[tx_id (transactions w tx) := tx]> (_items (queue w)))
                        (_order_seq (queue w) + 1)) w).
Proof. intros H. unfold add, bind, read_tx, get. rewrite H. reflexivity. Qed.

Lemma add_duplicate w tx v :
  _items (queue w) !! tx_id (transactions w tx) = Some v ->
  add tx w = (Raise (mkExn ValueError msg_duplicate), w).
Proof. intros H. unfold add, bind, read_tx, get. rewrite H. reflexivity. Qed.

Lemma add_items_kept tx : preserves items_kept (add tx).
Proof.
  intros w k v H.
  destruct (_items (queue w) !! tx_id (transactions w tx)) as [v'|] eqn:E.
  - rewrite (add_duplicate _ _ _ E). exact H.
  - rewrite (add_fresh _ _ E). simpl.
    destruct (decide (tx_id (transactions w tx) = k)) as [Heq|Hne].
    + rewrite Heq in E. congruence.
    + rewrite lookup_insert_ne; assumption.
Qed.

Lemma pop_ready_items_kept now : preserves items_kept (pop_ready now).
Proof.
  intros w k v H. unfold pop_ready, bind, get, modify, ret.
  destruct (now_or_clock now w) as [[t|e] w1] eqn:E.
  - assert (Hq : queue w1 = queue w).
    { destruct now; simpl in E; inversion E; reflexivity. }
    simpl. rewrite Hq.
    destruct (pop_loop _ _ _ _) as [res h]. simpl. exact H.
  - destruct now; simpl in E; inversion E.
Qed.

Lemma requeue_items_kept tx d : preserves items_kept (requeue tx d).
Proof.
  intros w k v H. unfold requeue, bind, read_tx, get, modify, ret.
  destruct (tx_status (transactions w tx)); simpl; try exact H.
  destruct (0 <? d); simpl; exact H.
Qed.

Lemma step_items_kept o w : items_kept w (step o w).
Proof.
  destruct o; simpl; unfold exec.
  - apply add_items_kept.
  - apply (cancel_frame items_kept).
  - apply pop_ready_items_kept.
  - apply requeue_items_kept.
  - apply (process_next_frame items_kept);
      auto using pop_ready_items_kept, requeue_items_kept.
  - apply (run_all_frame items_kept);
      auto using pop_ready_items_kept, requeue_items_kept.
Qed.

Lemma steps_items_kept ops w : items_kept w (steps ops w).
Proof.
  revert w. induction ops as [|o ops IH]; intros w; simpl.
  - reflexivity.
  - etransitivity; [apply step_items_kept | apply IH].
Qed.

(** C9. Once [add tx] has succeeded, the id map of the queue keeps the
    entry for that id through every later sequence of queue and processor
    operations (add, cancel, pop_ready, requeue, process_next, run_all), and
    [add] of any transaction object carrying the same id then raises the
    duplicate-id [ValueError] and changes nothing, whatever the status of
    the first transaction has become. *)
Theorem add_same_id_always_rejected (w : World) (tx tx' : nat) (ops : list Op) :
  outcome (add tx) w = Return tt ->
  tx_id (transactions (steps ops (exec (add tx) w)) tx') = tx_id (transactions w tx) ->
  _items (queue (steps ops (exec (add tx) w))) !! tx_id (transactions w tx) = Some tx
  /\ run (add tx') (steps ops (exec (add tx) w))
     = (Raise (mkExn ValueError msg_duplicate), steps ops (exec (add tx) w)).
Proof.
  intros Hok Hid.
  assert (Hkept : _items (queue (steps ops (exec (add tx) w)))
                    !! tx_id (transactions w tx) = Some tx).
  { apply steps_items_kept.
    unfold outcome, exec in *.
    destruct (_items (queue w) !! tx_id (transactions w tx)) as [v|] eqn:E.
    - rewrite (add_duplicate _ _ _ E) in Hok. discriminate Hok.
    - rewrite (add_fresh _ _ E). simpl. apply lookup_insert_eq. }
  split; [exact Hkept | ].
  unfold run. eapply add_duplicate. rewrite Hid. exact Hkept.
Qed.

(** ** The order of [_QueueItem] and the heap *)

Lemma item_ltb_spec a b :
  item_ltb a b = true <->
  (qi_scheduled_at a < qi_scheduled_at b
   \/ (qi_scheduled_at a = qi_scheduled_at b
       /\ (neg_priority a < neg_priority b
           \/ (neg_priority a = neg_priority b /\ order a < order b)))).
Proof.
  unfold item_ltb.
  rewrite !orb_true_iff, !andb_true_iff, !orb_true_iff, !andb_true_iff.
  rewrite !Z.ltb_lt, !Z.eqb_eq. reflexivity.
Qed.

Lemma item_ltb_false a b :
  item_ltb a b = false <->
  (qi_scheduled_at b < qi_scheduled_at a
   \/ (qi_scheduled_at b = qi_scheduled_at a
       /\ (neg_priority b < neg_priority a
           \/ (neg_priority b = neg_priority a /\ order b <= order a)))).
Proof.
  rewrite <- not_true_iff_false, item_ltb_spec. lia.
Qed.

Lemma item_ltb_asym a b : item_ltb a b = true -> item_ltb b a = false.
Proof. rewrite item_ltb_spec, item_ltb_false. lia. Qed.

Lemma item_le_trans a b c :
  item_ltb b a = false -> item_ltb c b = false -> item_ltb c a = false.
Proof. rewrite !item_ltb_false. lia. Qed.

Lemma heappush_In h x z : In z (heappush h x) <-> z = x \/ In z h.
Proof.
  induction h as [|y h IH]; simpl.
  - intuition.
  - destruct (item_ltb y x); simpl; rewrite ?IH; intuition.
Qed.

Lemma heappush_sorted h x : heap_sorted h -> heap_sorted (heappush h x).
Proof.
  unfold heap_sorted. induction h as [|y h IH]; intros Hs; simpl.
  - constructor; constructor.
  - inversion Hs as [|? ? Hs' Hall]; subst.
    destruct (item_ltb y x) eqn:E.
    + constructor; [apply IH; exact Hs' | ].
      rewrite List.Forall_forall in *. intros z Hz.
      apply heappush_In in Hz as [->|Hz]; [apply item_ltb_asym, E | apply Hall, Hz].
    + constructor; [exact Hs | ].
      constructor; [exact E | ].
      rewrite List.Forall_forall in *. intros z Hz.
      eapply item_le_trans; [exact E | apply Hall, Hz].
Qed.

(** What [pop_loop] leaves is a suffix of the heap. *)
Lemma pop_loop_suffix items txs now h :
  exists pre, h = (pre ++ snd (pop_loop items txs now h))%list.
Proof.
  induction h as [|top rest IH]; simpl.
  - exists []. reflexivity.
  - destruct (now <? qi_scheduled_at top); [exists []; reflexivity | ].
    destruct IH as [pre IH].
    destruct (items !! qi_tx_id top) as [tx|].
    + destruct (tx_status (txs tx));
        try (exists (top :: pre); simpl; f_equal; exact IH).
      exists [top]. reflexivity.
    + exists (top :: pre). simpl. f_equal. exact IH.
Qed.

Lemma heap_sorted_app_r l1 l2 : heap_sorted (l1 ++ l2) -> heap_sorted l2.
Proof.
  unfold heap_sorted. induction l1 as [|a l1 IH]; simpl; intros H; [exact H | ].
  inversion H; subst. apply IH. assumption.
Qed.

Lemma pop_loop_sorted items txs now h :
  heap_sorted h -> heap_sorted (snd (pop_loop items txs now h)).
Proof.
  intros Hs. destruct (pop_loop_suffix items txs now h) as [pre Hpre].
  rewrite Hpre in Hs. eapply heap_sorted_app_r. exact Hs.
Qed.

(** Entries behind a pending entry survive the loop. *)
Lemma pop_loop_keeps items txs now l1 e l2 tx :
  items !! qi_tx_id e = Some tx -> tx_status (txs tx) = PENDING ->
  forall x, In x l2 -> In x (snd (pop_loop items txs now (l1 ++ e :: l2))).
Proof.
  intros Hi Hp x Hx. induction l1 as [|a l1 IH]; simpl.
  - destruct (now <? qi_scheduled_at e); [right; exact Hx | ].
    rewrite Hi, Hp. exact Hx.
  - destruct (now <? qi_scheduled_at a).
    + simpl. right. apply in_or_app. right. right. exact Hx.
    + destruct (items !! qi_tx_id a) as [tx'|]; [ | exact IH].
      destruct (tx_status (txs tx')); try exact IH.
      simpl. apply in_or_app. right. right. exact Hx.
Qed.

(** A ready pending entry with nothing but ready entries before it makes the
    loop return a pending transaction, found at that entry or before it. *)
Lemma pop_loop_returns items txs now l1 e l2 tx :
  items !! qi_tx_id e = Some tx -> tx_status (txs tx) = PENDING ->
  qi_scheduled_at e <= now ->
  Forall (fun a => qi_scheduled_at a <= now) l1 ->
  exists e' tx', In e' (l1 ++ [e]) /\ items !! qi_tx_id e' = Some tx'
                 /\ tx_status (txs tx') = PENDING
                 /\ fst (pop_loop items txs now (l1 ++ e :: l2)) = Some tx'.
Proof.
  intros Hi Hp He Hall. induction l1 as [|a l1 IH]; simpl.
  - destruct (now <? qi_scheduled_at e) eqn:E; [apply Z.ltb_lt in E; lia | ].
    rewrite Hi, Hp. exists e, tx. auto.
  - inversion Hall as [|? ? Ha Hall']; subst.
    destruct (now <? qi_scheduled_at a) eqn:E; [apply Z.ltb_lt in E; lia | ].
    assert (Hrec : exists e' tx', (a = e' \/ In e' (l1 ++ [e]))
                     /\ items !! qi_tx_id e' = Some tx'
                     /\ tx_status (txs tx') = PENDING
                     /\ fst (pop_loop items txs now (l1 ++ e :: l2)) = Some tx').
    { destruct (IH Hall') as (e' & tx' & Hin & H1 & H2 & H3). exists e', tx'. auto. }
    destruct (items !! qi_tx_id a) as [tx'|] eqn:Hia; [ | exact Hrec].
    destruct (tx_status (txs tx')) eqn:Hpa; try exact Hrec.
    exists a, tx'. simpl. auto.
Qed.

(** What the loop returns is a pending transaction behind a ready entry. *)
Lemma pop_loop_Some items txs now h tx :
  fst (pop_loop items txs now h) = Some tx ->
  tx_status (txs tx) = PENDING
  /\ exists e, In e h /\ items !! qi_tx_id e = Some tx /\ qi_scheduled_at e <= now.
Proof.
  induction h as [|top rest IH]; simpl; [discriminate | ].
  destruct (now <? qi_scheduled_at top) eqn:E; [discriminate | ].
  apply Z.ltb_ge in E.
  assert (Hrec : fst (pop_loop items txs now rest) = Some tx ->
                 tx_status (txs tx) = PENDING
                 /\ exists e, In e (top :: rest) /\ items !! qi_tx_id e = Some tx
                              /\ qi_scheduled_at e <= now).
  { intros H. destruct (IH H) as (Hp & e & Hin & Hi & Hs).
    split; [exact Hp | exists e; simpl; auto]. }
  destruct (items !! qi_tx_id top) as [tx'|] eqn:Hi; [ | exact Hrec].
  destruct (tx_status (txs tx')) eqn:Hp; try exact Hrec.
  simpl. intros [= ->]. split; [exact Hp | exists top; simpl; auto].
Qed.

(** In a sorted heap a strictly smaller entry stands before a larger one. *)
Lemma sorted_split h e1 e2 :
  heap_sorted h -> In e1 h -> In e2 h -> item_ltb e1 e2 = true ->
  exists l1 l2, h = (l1 ++ e1 :: l2)%list /\ In e2 l2
                /\ Forall (fun a => item_ltb e1 a = false) l1.
Proof.
  unfold heap_sorted. induction h as [|a h IH]; intros Hs H1 H2 Hlt; [destruct H1 | ].
  inversion Hs as [|? ? Hs' Hall]; subst. rewrite List.Forall_forall in Hall.
  destruct H1 as [->|H1].
  - destruct H2 as [->|H2].
    + pose proof (item_ltb_asym _ _ Hlt). congruence.
    + exists [], h. auto.
  - destruct H2 as [->|H2].
    + specialize (Hall _ H1). congruence.
    + destruct (IH Hs' H1 H2 Hlt) as (l1 & l2 & -> & Hin & Hbefore).
      exists (a :: l1), l2. split; [reflexivity | split; [exact Hin | ]].
      constructor; [ | exact Hbefore].
      apply Hall. apply in_or_app. right. left. reflexivity.
Qed.

(** ** [pop_ready], [add] and [requeue] on the world *)

Lemma now_or_clock_run now w :
  now_or_clock now w = (Return (time_of now w), tick now w).
Proof. destruct now; reflexivity. Qed.

Lemma pop_ready_run now w :
  pop_ready now w =
    (Return (fst (pop_loop (_items (queue w)) (transactions w) (time_of now w)
                    (_heap (queue w)))),
     set_queue (mkQueue (snd (pop_loop (_items (queue w)) (transactions w)
                                (time_of now w) (_heap (queue w))))
                        (_items (queue w)) (_order_seq (queue w)))
               (tick now w)).
Proof.
  unfold pop_ready. rewrite (bind_Return _ _ _ _ _ (now_or_clock_run now w)).
  unfold bind, get, modify, ret.
  replace (queue (tick now w)) with (queue w) by (destruct now; reflexivity).
  replace (transactions (tick now w)) with (transactions w) by (destruct now; reflexivity).
  destruct (pop_loop _ _ _ _) as [res h]. reflexivity.
Qed.

Global Instance sorted_kept_preorder : PreOrder sorted_kept.
Proof.
  split.
  - intros w H. exact H.
  - intros a b c Hab Hbc H. apply Hbc, Hab, H.
Qed.

Global Instance sorted_kept_accounts : AllowsAccounts sorted_kept.
Proof. intros w f H. exact H. Qed.
Global Instance sorted_kept_transactions : AllowsTransactions sorted_kept.
Proof. intros w f H. exact H. Qed.
Global Instance sorted_kept_error_log : AllowsErrorLog sorted_kept.
Proof. intros w f H. exact H. Qed.
Global Instance sorted_kept_audit_log : AllowsAuditLog sorted_kept.
Proof. intros w f H. exact H. Qed.
Global Instance sorted_kept_risk_analyzer : AllowsRiskAnalyzer sorted_kept.
Proof. intros w f H. exact H. Qed.
Global Instance sorted_kept_clock : AllowsClock sorted_kept.
Proof. intros w f H. exact H. Qed.

Lemma add_sorted_kept tx : preserves sorted_kept (add tx).
Proof.
  intros w H.
  destruct (_items (queue w) !! tx_id (transactions w tx)) as [v'|] eqn:E.
  - rewrite (add_duplicate _ _ _ E). exact H.
  - rewrite (add_fresh _ _ E). simpl. apply heappush_sorted, H.
Qed.

Lemma pop_ready_sorted_kept now : preserves sorted_kept (pop_ready now).
Proof.
  intros w H. rewrite pop_ready_run. simpl. apply pop_loop_sorted, H.
Qed.

Lemma requeue_sorted_kept tx d : preserves sorted_kept (requeue tx d).
Proof.
  intros w H. unfold requeue, bind, read_tx, get, modify, ret.
  destruct (tx_status (transactions w tx)); simpl; try exact H.
  destruct (0 <? d); simpl; apply heappush_sorted, H.
Qed.

Lemma step_sorted_kept o w : sorted_kept w (step o w).
Proof.
  destruct o; simpl; unfold exec.
  - apply add_sorted_kept.
  - apply (cancel_frame sorted_kept).
  - apply pop_ready_sorted_kept.
  - apply requeue_sorted_kept.
  - apply (process_next_frame sorted_kept);
      auto using pop_ready_sorted_kept, requeue_sorted_kept.
  - apply (run_all_frame sorted_kept);
      auto using pop_ready_sorted_kept, requeue_sorted_kept.
Qed.

(** The heap of a queue that started empty is sorted at every moment. *)
Lemma steps_heap_sorted ops w :
  heap_sorted (_heap (queue w)) -> heap_sorted (_heap (queue (steps ops w))).
Proof.
  revert w. induction ops as [|o ops IH]; intros w H; simpl.
  - exact H.
  - apply IH, step_sorted_kept, H.
Qed.

(** C1 (amended). [pop_ready] takes entries in the order of the heap key:
    earlier scheduled time first, whatever the priorities; at equal
    scheduled time the higher priority first; at equal time and priority
    the earlier insertion first.  For two queued entries [e1] before [e2]
    in that order, [e1] being pending: [pop_ready] leaves [e2] in the heap,
    and when [e1] is ready it returns a pending transaction taken from an
    entry that does not come after [e1]. *)
Theorem pop_ready_follows_heap_key (w : World) (now : option datetime)
    (e1 e2 : _QueueItem) (tx1 : nat) :
  heap_sorted (_heap (queue w)) ->
  In e1 (_heap (queue w)) -> In e2 (_heap (queue w)) ->
  _items (queue w) !! qi_tx_id e1 = Some tx1 ->
  tx_status (transactions w tx1) = PENDING ->
  (qi_scheduled_at e1 < qi_scheduled_at e2
   \/ (qi_scheduled_at e1 = qi_scheduled_at e2
       /\ (qi_priority e2 < qi_priority e1
           \/ (qi_priority e1 = qi_priority e2 /\ order e1 < order e2)))) ->
  In e2 (_heap (queue (exec (pop_ready now) w)))
  /\ (qi_scheduled_at e1 <= time_of now w ->
      exists e tx, In e (_heap (queue w))
                   /\ item_ltb e1 e = false
                   /\ _items (queue w) !! qi_tx_id e = Some tx
                   /\ tx_status (transactions w tx) = PENDING
                   /\ outcome (pop_ready now) w = Return (Some tx)).
Proof.
  intros Hs H1 H2 Hi Hp Hprio.
  assert (Hlt : item_ltb e1 e2 = true).
  { apply item_ltb_spec. unfold qi_priority in Hprio. lia. }
  destruct (sorted_split _ _ _ Hs H1 H2 Hlt) as (l1 & l2 & Hh & Hin2 & Hbefore).
  unfold exec, outcome. rewrite pop_ready_run. simpl. rewrite Hh. split.
  - eapply pop_loop_keeps; eassumption.
  - intros Hready.
    assert (Hall : Forall (fun a => qi_scheduled_at a <= time_of now w) l1).
    { rewrite List.Forall_forall in *. intros a Ha.
      specialize (Hbefore a Ha). apply item_ltb_false in Hbefore. lia. }
    destruct (pop_loop_returns _ _ _ _ _ l2 _ Hi Hp Hready Hall)
      as (e & tx & Hin & Hie & Hpe & Hres).
    exists e, tx. repeat split; try assumption.
    + apply in_app_or in Hin as [Hin|[<-|[]]]; apply in_or_app; [left|right; left]; auto.
    + apply in_app_or in Hin as [Hin|[<-|[]]].
      * rewrite List.Forall_forall in Hbefore. apply Hbefore, Hin.
      * apply item_ltb_false. lia.
    + rewrite Hres. reflexivity.
Qed.

(** ** Computations that never raise *)

Lemma returns_ret {A} (a : A) : returns (ret a).
Proof. intros w. exists a. reflexivity. Qed.

Lemma returns_bind {A B} (m : M A) (k : A -> M B) :
  returns m -> (forall a, returns (k a)) -> returns (bind m k).
Proof.
  intros Hm Hk w. unfold bind. destruct (Hm w) as [a Ha].
  destruct (m w) as [[a'|e] w1]; simpl in Ha; [ | discriminate Ha].
  apply Hk.
Qed.

Lemma returns_try_except_all {A} (m : M A) (h : Exn -> M A) :
  (forall e, returns (h e)) -> returns (try_except m (fun _ => true) h).
Proof.
  intros Hh w. unfold try_except. destruct (m w) as [[a|e] w1].
  - exists a. reflexivity.
  - apply Hh.
Qed.

Lemma returns_modify f : returns (modify f).
Proof. intros w. exists tt. reflexivity. Qed.

Lemma returns_get : returns get.
Proof. intros w. exists w. reflexivity. Qed.

Lemma returns_read_tx l : returns (read_tx l).
Proof. intros w. eexists. reflexivity. Qed.

Lemma returns_read_account l : returns (read_account l).
Proof. intros w. eexists. reflexivity. Qed.

Lemma returns_datetime_now : returns datetime_now.
Proof. intros w. eexists. reflexivity. Qed.

Lemma returns_now_or_clock now : returns (now_or_clock now).
Proof. destruct now; [apply returns_ret | apply returns_datetime_now]. Qed.

Create HintDb returns.
#[export] Hint Resolve returns_ret returns_modify returns_get returns_read_tx
  returns_read_account returns_datetime_now returns_now_or_clock : returns.

Ltac returns_step :=
  lazymatch goal with
  | |- returns (bind _ _) => apply returns_bind; [ | intros ? ]
  | |- returns (try_except _ (fun _ => true) _) =>
      apply returns_try_except_all; intros ?
  | |- returns (write_tx _ _) => apply returns_modify
  | |- returns (write_account _ _) => apply returns_modify
  | |- returns (append_error_log _) => apply returns_modify
  | |- returns (match ?x with _ => _ end) => destruct x
  | |- returns ((fun _ => _) _) => cbv beta
  | |- returns _ => solve [eauto with returns]
  end.

Ltac returns_tac := repeat returns_step.

Lemma mark_failed_returns tx reason : returns (mark_failed tx reason).
Proof. unfold mark_failed. returns_tac. Qed.

Lemma requeue_returns tx d : returns (requeue tx d).
Proof. unfold requeue. returns_tac. Qed.

Lemma pop_ready_returns now : returns (pop_ready now).
Proof. intros w. rewrite pop_ready_run. eexists. reflexivity. Qed.

Lemma _account_id_returns o : returns (_account_id o).
Proof. unfold _account_id. returns_tac. Qed.

Lemma _owner_name_returns o : returns (_owner_name o).
Proof. unfold _owner_name. returns_tac. Qed.

Lemma AuditLog_add_returns log lvl msg ex : returns (AuditLog_add log lvl msg ex).
Proof. unfold AuditLog_add. returns_tac. Qed.

#[export] Hint Resolve mark_failed_returns requeue_returns pop_ready_returns
  _account_id_returns _owner_name_returns AuditLog_add_returns : returns.

Lemma assess_returns ra a c s r now : returns (assess ra a c s r now).
Proof. unfold assess. returns_tac. Qed.

#[export] Hint Resolve assess_returns : returns.

Lemma risk_stage_returns tx now : returns (risk_stage tx now).
Proof. unfold risk_stage. returns_tac. Qed.

#[export] Hint Resolve risk_stage_returns : returns.

(** [process_next] returns normally in every world: nothing raised while a
    transaction is executed leaves it. *)
Lemma process_next_returns now : returns (process_next now).
Proof.
  unfold process_next, process_popped, on_terminal_error, on_transient_error.
  returns_tac.
Qed.

(** ** The stages of [process_next] *)

Lemma preserves_run {A} R (m : M A) w a w' :
  preserves R m -> m w = (a, w') -> R w w'.
Proof. intros H E. specialize (H w). rewrite E in H. exact H. Qed.

(** A risk stage that does not block leaves the transactions alone. *)
Lemma risk_stage_false_transactions tx now w w' :
  risk_stage tx now w = (Return false, w') -> transactions w' = transactions w.
Proof.
  unfold risk_stage. unfold bind at 1. unfold get at 1.
  destruct (risk_analyzer w) as [ra|]; [ | intros [= <-]; reflexivity].
  unfold bind at 1. unfold read_tx at 1.
  intros H. apply bind_Return_inv in H as ([ra' [[lvl reasons] ex]] & wa & Ha & H).
  apply (preserves_run (same transactions)) in Ha; [ | apply assess_frame; typeclasses eauto].
  apply bind_Return_inv in H as ([] & wb & Hb & H).
  apply (preserves_run (same transactions)) in Hb;
    [ | apply preserves_set_risk_analyzer; typeclasses eauto].
  apply bind_Return_inv in H as (w1 & wc & Hc & H). inversion Hc; subst wc w1; clear Hc.
  apply bind_Return_inv in H as ([] & wd & Hd & H).
  assert (Hd' : same transactions wb wd).
  { eapply preserves_run; [ | exact Hd].
    destruct (audit_log wb); frame. }
  destruct lvl.
  - inversion H; subst. unfold same in *. congruence.
  - inversion H; subst. unfold same in *. congruence.
  - apply bind_Return_inv in H as ([] & we & _ & H). inversion H.
Qed.

Section Stages.
Context (now : option datetime) (w w1 w2 w3 : World) (tx : nat) (e : Exn).
Hypothesis Hpop : run (pop_ready now) w = (Return (Some tx), w1).
Hypothesis Hrisk : run (risk_stage tx now) w1 = (Return false, w2).
Hypothesis Hexec : run (_process_transaction tx) w2 = (Raise e, w3).

Lemma stages_process_next :
  process_next now w =
    (if is_terminal (exn_class e) then on_terminal_error tx e
     else on_transient_error tx e) w3.
Proof.
  unfold run in *. unfold process_next, process_popped.
  rewrite (bind_Return _ _ _ _ _ Hpop). rewrite (bind_Return _ _ _ _ _ Hrisk).
  unfold try_except. rewrite (bind_Raise _ _ _ _ _ Hexec). reflexivity.
Qed.

Lemma stages_same {B} (f : World -> B)
    `{!AllowsAccounts (same f)} `{!AllowsTransactions (same f)}
    `{!AllowsQueue (same f)} `{!AllowsClock (same f)}
    `{!AllowsAuditLog (same f)} `{!AllowsRiskAnalyzer (same f)} :
  f w3 = f w.
Proof.
  unfold run in *.
  apply (preserves_run (same f)) in Hpop; [ | apply pop_ready_frame; typeclasses eauto].
  apply (preserves_run (same f)) in Hrisk; [ | apply risk_stage_frame; typeclasses eauto].
  apply (preserves_run (same f)) in Hexec;
    [ | apply _process_transaction_frame; typeclasses eauto].
  unfold same in *. congruence.
Qed.

Lemma stages_transactions : transactions w3 = transactions w.
Proof.
  unfold run in *.
  apply (preserves_run (same transactions)) in Hpop;
    [ | apply pop_ready_frame; typeclasses eauto].
  apply risk_stage_false_transactions in Hrisk.
  apply (preserves_run (same transactions)) in Hexec;
    [ | apply _process_transaction_frame; typeclasses eauto].
  unfold same in *. congruence.
Qed.

Lemma stages_pending : tx_status (transactions w tx) = PENDING.
Proof.
  unfold run in Hpop. rewrite pop_ready_run in Hpop. inversion Hpop as [[Hres Hw]].
  apply pop_loop_Some in Hres. apply Hres.
Qed.
End Stages.

Lemma upd_same {A} (f : nat -> A) l v : upd f l v l = v.
Proof. unfold upd. rewrite Nat.eqb_refl. reflexivity. Qed.

(** C8. [process_next] returns normally in every world; and when the
    transaction it popped is executed and the execution raises one of the
    terminal errors (AccountFrozenError, AccountClosedError,
    InsufficientFundsError, InvalidOperationError), [process_next] returns
    [True], the transaction is Failed with the message of the error as its
    reason, and the error log has grown by exactly the entry
    ["<tx_id>: <class name>: <message>"]. *)
Theorem process_next_converts_terminal_errors (now : option datetime) (w : World) :
  (exists b, outcome (process_next now) w = Return b)
  /\ forall tx w1 w2 w3 e,
      run (pop_ready now) w = (Return (Some tx), w1) ->
      run (risk_stage tx now) w1 = (Return false, w2) ->
      run (_process_transaction tx) w2 = (Raise e, w3) ->
      is_terminal (exn_class e) = true ->
      outcome (process_next now) w = Return true
      /\ tx_status (transactions (exec (process_next now) w) tx) = FAILED
      /\ failure_reason (transactions (exec (process_next now) w) tx) = Some (exn_msg e)
      /\ error_log (exec (process_next now) w)
         = (error_log w
            ++ [(tx_id (transactions w tx) ++ ": " ++ exn_name (exn_class e)
                 ++ ": " ++ exn_msg e)%string])%list.
Proof.
  split; [apply process_next_returns | ].
  intros tx w1 w2 w3 e Hpop Hrisk Hexec Hterm.
  unfold outcome, exec.
  rewrite (stages_process_next _ _ _ _ _ _ _ Hpop Hrisk Hexec), Hterm.
  pose proof (stages_transactions _ _ _ _ _ _ _ Hpop Hrisk Hexec) as Htx.
  pose proof (stages_same _ _ _ _ _ _ _ Hpop Hrisk Hexec error_log) as Hlog.
  unfold on_terminal_error, mark_failed, append_error_log, bind, datetime_now, read_tx,
    write_tx, modify, ret. simpl.
  rewrite !upd_same. simpl. rewrite Htx, Hlog. auto.
Qed.

(** C4 (amended). When the transaction popped by [process_next now] is
    executed and the execution raises an error that is not one of the four
    terminal ones, the attempt counter goes up by one and [process_next]
    returns [True]; if the counter now exceeds [max_retries] the
    transaction is Failed with reason ["temporary_error: <message>"];
    otherwise it stays Pending, gets a new heap entry, and its
    [scheduled_at] is the reading of the wall clock taken by [requeue]
    (the second reading after the failure) plus [attempts] seconds: the
    [now] given to [process_next] plays no part in it. *)
Theorem process_next_retries_transient_errors (now : option datetime) (w w1 w2 w3 : World)
    (tx : nat) (e : Exn) :
  run (pop_ready now) w = (Return (Some tx), w1) ->
  run (risk_stage tx now) w1 = (Return false, w2) ->
  run (_process_transaction tx) w2 = (Raise e, w3) ->
  is_terminal (exn_class e) = false ->
  0 <= attempts (transactions w tx) ->
  let w' := exec (process_next now) w in
  let n := attempts (transactions w tx) + 1 in
  outcome (process_next now) w = Return true
  /\ attempts (transactions w' tx) = n
  /\ (max_retries (config w) < n ->
      tx_status (transactions w' tx) = FAILED
      /\ failure_reason (transactions w' tx) = Some ("temporary_error: " ++ exn_msg e)%string)
  /\ (n <= max_retries (config w) ->
      tx_status (transactions w' tx) = PENDING
      /\ scheduled_at (transactions w' tx)
         = utc_clock w (S (clock_reads w3)) + timedelta_seconds n
      /\ In (item_of (transactions w' tx) (_order_seq (queue w')))
            (_heap (queue w'))).
Proof.
  intros Hpop Hrisk Hexec Hterm Hatt. simpl.
  unfold outcome, exec.
  rewrite (stages_process_next _ _ _ _ _ _ _ Hpop Hrisk Hexec), Hterm.
  pose proof (stages_transactions _ _ _ _ _ _ _ Hpop Hrisk Hexec) as Htx.
  pose proof (stages_same _ _ _ _ _ _ _ Hpop Hrisk Hexec config) as Hcfg.
  pose proof (stages_same _ _ _ _ _ _ _ Hpop Hrisk Hexec utc_clock) as Hclk.
  pose proof (stages_pending _ _ _ _ Hpop) as Hpend.
  unfold on_transient_error, bind, read_tx, write_tx, get, modify. simpl.
  rewrite Hcfg, Htx.
  destruct (max_retries (config w) <? attempts (transactions w tx) + 1) eqn:Hmax.
  - apply Z.ltb_lt in Hmax.
    unfold mark_failed, append_error_log, bind, datetime_now, read_tx, write_tx,
      modify, ret. simpl. rewrite !upd_same. simpl.
    repeat split; try reflexivity; intros; lia.
  - apply Z.ltb_ge in Hmax.
    unfold requeue, bind, datetime_now, read_tx, write_tx, get, modify, ret. simpl.
    rewrite !upd_same. simpl. rewrite Hpend.
    destruct (0 <? 1 * (attempts (transactions w tx) + 1)) eqn:Hd;
      [ | apply Z.ltb_ge in Hd; lia].
    simpl. rewrite !upd_same. simpl. rewrite Hclk.
    repeat split; try reflexivity; try (intros; lia).
    + exact Hpend.
    + rewrite Z.mul_1_l. reflexivity.
    + apply heappush_In. left. reflexivity.
Qed.

(** ** The frequency rule of [assess] *)

Lemma nonempty_true s : s <> "" -> nonempty s = true.
Proof. destruct s; [congruence | reflexivity]. Qed.

Lemma tick_accounts now w : accounts (tick now w) = accounts w.
Proof. destruct now; reflexivity. Qed.

(** What one call of [assess] does for a sender that is an account with a
    non-empty id. *)
Lemma assess_frequency ra a c l rcp now w :
  acc_id (accounts w l) <> "" ->
  exists ra' lvl reasons ex,
    run (assess ra a c (PyAccount l) rcp now) w
      = (Return (ra', (lvl, reasons, ex)), tick now w)
    /\ risk_config ra' = risk_config ra
    /\ _history ra'
       = <[acc_id (accounts w l)
           := pruned_history (risk_config ra) (time_of now w)
                (default [] (_history ra !! acc_id (accounts w l)))]> (_history ra)
    /\ (frequency_limit (risk_config ra)
        <= Z.of_nat (length (pruned_history (risk_config ra) (time_of now w)
                               (default [] (_history ra !! acc_id (accounts w l)))))
        -> lvl = HIGH)
    /\ (In reason_frequent reasons
        <-> frequency_limit (risk_config ra)
            <= Z.of_nat (length (pruned_history (risk_config ra) (time_of now w)
                                   (default [] (_history ra !! acc_id (accounts w l)))))).
Proof.
  intros Hid. unfold run, assess.
  rewrite (bind_Return _ _ _ _ _ (now_or_clock_run now w)).
  set (t := time_of now w).
  set (cfg := risk_config ra).
  destruct (match large_amount_threshold cfg !! c with
            | Some threshold =>
                if Qle_bool threshold
                     match a with PyFloat q => q | PyNonNumeric _ _ => 0%Q end
                then (HIGH, [reason_large_amount]) else (LOW, [])
            | None => (LOW, [])
            end) as [level0 reasons0] eqn:E0.
  assert (H0 : ~ In reason_frequent reasons0).
  { destruct (large_amount_threshold cfg !! c) as [th|];
      [destruct (Qle_bool th _) | ]; inversion E0; subst; simpl;
      intuition discriminate. }
  clear E0.
  unfold bind at 1. simpl _account_id. unfold bind at 1, read_account at 1, ret at 1.
  rewrite tick_accounts. rewrite (nonempty_true _ Hid).
  set (sid := acc_id (accounts w l)) in *.
  set (hist := pruned_history cfg t (default [] (_history ra !! sid))).
  destruct (frequency_limit cfg <=? Z.of_nat (length hist)) eqn:Elim.
  - apply Z.leb_le in Elim.
    unfold bind, ret.
    destruct (_account_id rcp (tick now w)) as [[rec_id|?] w1] eqn:Er;
      [ | destruct rcp; discriminate Er].
    assert (w1 = tick now w) as -> by (destruct rcp; inversion Er; reflexivity).
    destruct (nonempty rec_id && _); destruct (_is_night cfg t);
      destruct (_owner_name (PyAccount l) (tick now w)) as [[os|?] w2] eqn:Eo;
      try discriminate Eo;
      assert (w2 = tick now w) as -> by (inversion Eo; reflexivity);
      destruct (_owner_name rcp (tick now w)) as [[or|?] w3] eqn:Eor;
      try (destruct rcp; discriminate Eor);
      assert (w3 = tick now w) as -> by (destruct rcp; inversion Eor; reflexivity);
      do 4 eexists; (split; [reflexivity | ]); simpl;
      (split; [reflexivity | ]); (split; [reflexivity | ]);
      (split; [intros _; reflexivity | ]);
      (split; [intros _; exact Elim | intros _ ]);
      rewrite ?in_app_iff; simpl; tauto.
  - apply Z.leb_gt in Elim.
    unfold bind, ret.
    destruct (_account_id rcp (tick now w)) as [[rec_id|?] w1] eqn:Er;
      [ | destruct rcp; discriminate Er].
    assert (w1 = tick now w) as -> by (destruct rcp; inversion Er; reflexivity).
    destruct (nonempty rec_id && _); destruct (_is_night cfg t);
      destruct (_owner_name (PyAccount l) (tick now w)) as [[os|?] w2] eqn:Eo;
      try discriminate Eo;
      assert (w2 = tick now w) as -> by (inversion Eo; reflexivity);
      destruct (_owner_name rcp (tick now w)) as [[or|?] w3] eqn:Eor;
      try (destruct rcp; discriminate Eor);
      assert (w3 = tick now w) as -> by (destruct rcp; inversion Eor; reflexivity);
      do 4 eexists; (split; [reflexivity | ]); simpl;
      (split; [reflexivity | ]); (split; [reflexivity | ]);
      (split; [intros Hc; lia | ]);
      (split; [ | intros Hc; lia ]);
      rewrite ?in_app_iff; simpl; intuition discriminate.
Qed.

Lemma pruned_history_length cfg t hist :
  length (pruned_history cfg t hist)
  = S (length (List.filter
                 (fun ts => t - timedelta_seconds (frequency_window_seconds cfg) <=? ts)
                 hist)).
Proof. unfold pruned_history. rewrite length_app. simpl. lia. Qed.

Lemma pruned_history_keeps cfg t t0 hist :
  t - t0 <= timedelta_seconds (frequency_window_seconds cfg) ->
  List.filter (fun ts => t - timedelta_seconds (frequency_window_seconds cfg) <=? ts)
    (hist ++ [t0])
  = (List.filter (fun ts => t - timedelta_seconds (frequency_window_seconds cfg) <=? ts)
       hist ++ [t0])%list.
Proof.
  intros H. rewrite List.filter_app. simpl.
  destruct (t - timedelta_seconds (frequency_window_seconds cfg) <=? t0) eqn:E;
    [reflexivity | apply Z.leb_gt in E; lia].
Qed.

(** C5. For a sender that is an account with a non-empty id, [assess]
    replaces the sender's history by the timestamps not older than [now]
    minus the window followed by [now]; the reason "frequent operations" is
    given exactly when the length of that list reaches [frequency_limit],
    and the level is then High.  In particular, with a limit of 3 (or
    less) and three calls for the same sender at times that lie pairwise
    within the window, the third call returns High with that reason. *)
Theorem assess_frequency_rule (w : World) (ra : RiskAnalyzer) (l : nat) :
  acc_id (accounts w l) <> "" ->
  (forall a c rcp now,
      exists ra' lvl reasons ex,
        run (assess ra a c (PyAccount l) rcp now) w
          = (Return (ra', (lvl, reasons, ex)), tick now w)
        /\ _history ra' !! acc_id (accounts w l)
           = Some (List.filter
                     (fun ts => time_of now w
                                - timedelta_seconds
                                    (frequency_window_seconds (risk_config ra)) <=? ts)
                     (default [] (_history ra !! acc_id (accounts w l)))
                   ++ [time_of now w])%list
        /\ (In reason_frequent reasons
            <-> frequency_limit (risk_config ra)
                <= Z.of_nat (length (default [] (_history ra' !! acc_id (accounts w l)))))
        /\ (In reason_frequent reasons -> lvl = HIGH))
  /\ (forall a1 c1 r1 t1 a2 c2 r2 t2 a3 c3 r3 t3,
      frequency_limit (risk_config ra) <= 3 ->
      t2 - t1 <= timedelta_seconds (frequency_window_seconds (risk_config ra)) ->
      t3 - t1 <= timedelta_seconds (frequency_window_seconds (risk_config ra)) ->
      t3 - t2 <= timedelta_seconds (frequency_window_seconds (risk_config ra)) ->
      exists ra1 res1 ra2 res2 ra3 reasons ex,
        run (assess ra a1 c1 (PyAccount l) r1 (Some t1)) w = (Return (ra1, res1), w)
        /\ run (assess ra1 a2 c2 (PyAccount l) r2 (Some t2)) w = (Return (ra2, res2), w)
        /\ run (assess ra2 a3 c3 (PyAccount l) r3 (Some t3)) w
           = (Return (ra3, (HIGH, reasons, ex)), w)
        /\ In reason_frequent reasons).
Proof.
  intros Hid. split.
  - intros a c rcp now.
    destruct (assess_frequency ra a c l rcp now w Hid)
      as (ra' & lvl & reasons & ex & Hrun & Hcfg & Hhist & Hhigh & Hiff).
    exists ra', lvl, reasons, ex. split; [exact Hrun | ].
    assert (Hlook : _history ra' !! acc_id (accounts w l)
                    = Some (pruned_history (risk_config ra) (time_of now w)
                              (default [] (_history ra !! acc_id (accounts w l))))).
    { rewrite Hhist. apply lookup_insert_eq. }
    split; [exact Hlook | ]. rewrite Hlook. simpl.
    split; [exact Hiff | ]. intros Hin. apply Hhigh, Hiff, Hin.
  - intros a1 c1 r1 t1 a2 c2 r2 t2 a3 c3 r3 t3 Hlim H21 H31 H32.
    destruct (assess_frequency ra a1 c1 l r1 (Some t1) w Hid)
      as (ra1 & lvl1 & reasons1 & ex1 & Hrun1 & Hcfg1 & Hhist1 & _ & _).
    destruct (assess_frequency ra1 a2 c2 l r2 (Some t2) w Hid)
      as (ra2 & lvl2 & reasons2 & ex2 & Hrun2 & Hcfg2 & Hhist2 & _ & _).
    destruct (assess_frequency ra2 a3 c3 l r3 (Some t3) w Hid)
      as (ra3 & lvl3 & reasons3 & ex3 & Hrun3 & Hcfg3 & Hhist3 & Hhigh3 & Hiff3).
    simpl in *.
    assert (Hlen : frequency_limit (risk_config ra2)
                   <= Z.of_nat (length (pruned_history (risk_config ra2) t3
                        (default [] (_history ra2 !! acc_id (accounts w l)))))).
    { rewrite Hhist2, lookup_insert_eq. simpl.
      rewrite Hhist1, lookup_insert_eq. simpl.
      rewrite Hcfg2, Hcfg1.
      rewrite pruned_history_length. unfold pruned_history.
      rewrite pruned_history_keeps by exact H32.
      rewrite List.filter_app. simpl.
      destruct (t2 - timedelta_seconds (frequency_window_seconds (risk_config ra)) <=? t1)
        eqn:E; [ | apply Z.leb_gt in E; lia].
      rewrite pruned_history_keeps by exact H31.
      rewrite !length_app. simpl. lia. }
    exists ra1, (lvl1, reasons1, ex1), ra2, (lvl2, reasons2, ex2), ra3, reasons3, ex3.
    split; [exact Hrun1 | ]. split; [exact Hrun2 | ].
    rewrite (Hhigh3 Hlen) in Hrun3. split; [exact Hrun3 | ].
    apply Hiff3, Hlen.
Qed.

(** ** Executing a transaction *)

Lemma Qle_bool_false x y : (y < x)%Q -> Qle_bool x y = false.
Proof.
  intros H. apply not_true_iff_false. rewrite Qle_bool_iff. lra.
Qed.

Lemma Qle_bool_true x y : (x <= y)%Q -> Qle_bool x y = true.
Proof. apply Qle_bool_iff. Qed.


Lemma Qltb_false x y : (y <= x)%Q -> Qltb x y = false.
Proof. intros H. unfold Qltb. rewrite Qle_bool_true by exact H. reflexivity. Qed.

Lemma Qle_bool_false_inv x y : Qle_bool x y = false -> (y < x)%Q.
Proof.
  intros H. apply not_true_iff_false in H. rewrite Qle_bool_iff in H. lra.
Qed.

Lemma upd_other {A} (f : nat -> A) l v k : k <> l -> upd f l v k = f k.
Proof. intros H. unfold upd. apply Nat.eqb_neq in H. rewrite H. reflexivity. Qed.

(** The fee the processor computes from a numeric [fee_fixed]. *)
Lemma fee_float_run fee w :
  exists fee0, py_float (if py_truthy (PyFloat fee) then PyFloat fee else PyFloat 0) w
               = (Return fee0, w) /\ (fee0 == fee)%Q.
Proof.
  simpl. destruct (Qeq_bool fee 0) eqn:E; simpl.
  - exists 0%Q. split; [reflexivity | ]. apply Qeq_bool_iff in E. lra.
  - exists fee. split; [reflexivity | lra].
Qed.

Lemma convert_run cfg_rate amt c1 c2 w :
  conversion_rate (config w) c1 c2 = Some cfg_rate ->
  exists v, convert amt c1 c2 w = (Return v, w) /\ (v == amt * cfg_rate)%Q.
Proof.
  unfold conversion_rate, convert. destruct (Currency_eqb c1 c2).
  - intros [= <-]. exists amt. split; [reflexivity | lra].
  - unfold bind, get. intros ->. exists (amt * cfg_rate)%Q. split; [reflexivity | lra].
Qed.

Lemma deposit_run l amt w :
  status (accounts w l) = ACTIVE -> (0 < amt)%Q ->
  deposit l amt w
  = (Return tt,
     set_accounts (upd (accounts w) l
                     (set_balance (_balance (accounts w l) + amt)%Q (accounts w l))) w).
Proof.
  intros Hs Ha. unfold deposit, _ensure_active, _validate_amount, bind, read_account,
    write_account, modify, ret.
  rewrite Hs. rewrite (Qle_bool_false _ _ Ha). reflexivity.
Qed.

(** Stepping through a [bind] whose first computation is known. *)
Ltac mret := erewrite bind_Return; [ | reflexivity]; cbv beta.
Ltac mret_by H := erewrite bind_Return; [ | exact H]; cbv beta.

Lemma _ensure_account_active_run l w :
  status (accounts w l) = ACTIVE -> _ensure_account_active (PyAccount l) w = (Return tt, w).
Proof. intros H. unfold _ensure_account_active, bind, read_account. rewrite H. reflexivity. Qed.







Lemma withdraw_bank_run l amt w :
  kind (accounts w l) = BankAccount -> status (accounts w l) = ACTIVE ->
  (0 < amt)%Q -> (amt <= _balance (accounts w l))%Q ->
  withdraw l amt w
  = (Return tt,
     set_accounts (upd (accounts w) l
                     (set_balance (_balance (accounts w l) - amt)%Q (accounts w l))) w).
Proof.
  intros Hk Hs Ha Hb. unfold withdraw. unfold bind at 1, read_account at 1. rewrite Hk.
  unfold BankAccount_withdraw, _ensure_active, _validate_amount, bind, read_account,
    write_account, modify, ret.
  rewrite Hs. rewrite (Qle_bool_false _ _ Ha). rewrite (Qltb_false _ _ Hb). reflexivity.
Qed.

(** C6. Internal transfer of 100 RUB, zero fee, not external, from an
    active plain account holding 1000 RUB to an active account holding 0
    USD, with the rate RUB->USD registered as 0.01: the execution succeeds,
    the sender is left with 900 RUB and the recipient with 1 USD. *)
Theorem internal_transfer_rub_to_usd (w : World) (tx a b : nat) (amt fee rate : Q) :
  sender (transactions w tx) = PyAccount a ->
  recipient (transactions w tx) = PyAccount b ->
  tx_currency (transactions w tx) = RUB ->
  amount (transactions w tx) = PyFloat amt -> (amt == 100)%Q ->
  fee_fixed (transactions w tx) = PyFloat fee -> (fee == 0)%Q ->
  is_external (transactions w tx) = false ->
  kind (accounts w a) = BankAccount -> status (accounts w a) = ACTIVE ->
  currency (accounts w a) = RUB -> (_balance (accounts w a) == 1000)%Q ->
  status (accounts w b) = ACTIVE ->
  currency (accounts w b) = USD -> (_balance (accounts w b) == 0)%Q ->
  rates (config w) !! (RUB, USD) = Some rate -> (rate == 1 # 100)%Q ->
  exists w',
    run (_process_transaction tx) w = (Return tt, w')
    /\ (_balance (accounts w' a) == 900)%Q
    /\ (_balance (accounts w' b) == 1)%Q.
Proof.
  intros Hs Hr Hcur Ha Hamt Hf Hfee Hext Hka Hsa Hca Hba Hsb Hcb Hbb Hrate Hrt.
  assert (Hab : b <> a) by (intros ->; congruence).
  unfold run, _process_transaction.
  mret. mret. destruct (tx_type (transactions w tx)). mret.
  rewrite Ha, Hf, Hs, Hr, Hext, Hcur. mret.
  rewrite (Qle_bool_false amt 0) by lra. mret.
  destruct (fee_float_run fee w) as (fee0 & Hfee0 & Hfeq).
  mret_by Hfee0.
  mret_by (_ensure_account_active_run _ _ Hsa).
  mret_by (_ensure_account_active_run _ _ Hsb).
  cbv beta iota delta [is_not_none andb].
  mret. mret. rewrite Hca.
  change (negb (Currency_eqb RUB RUB)) with false. cbv iota. mret.
  cbv beta iota.
  assert (Hnp : is_premium (accounts w a) = false)
    by (unfold is_premium; rewrite Hka; reflexivity).
  rewrite Hnp.
  erewrite (bind_Return (bind _ _)).
  2: { mret. rewrite (Qltb_false (_balance (accounts w a)) (amt + fee0)) by lra.
       unfold withdraw_amount_then_fee.
       mret_by (withdraw_bank_run a amt w Hka Hsa ltac:(lra) ltac:(lra)).
       rewrite (Qltb_false 0 fee0) by lra. reflexivity. }
  cbv beta. mret. mret.
  set (w1 := set_accounts _ w).
  assert (Hb1 : accounts w1 b = accounts w b) by (unfold w1; simpl; apply upd_other, Hab).
  rewrite Hb1, Hcb. change (negb (Currency_eqb RUB USD)) with true. cbv iota.
  destruct (convert_run rate amt RUB USD w1) as (v & Hv & Hveq).
  { unfold conversion_rate. simpl. exact Hrate. }
  mret_by Hv.
  rewrite deposit_run; [ | rewrite Hb1; exact Hsb | nra ].
  eexists. split; [reflexivity | ]. simpl.
  rewrite upd_same, (upd_other _ _ _ a) by congruence.
  unfold w1. simpl. rewrite upd_same, upd_other by exact Hab. simpl.
  split; [lra | nra].
Qed.


(** ** The lifecycle of a transaction *)

Global Instance only_tx_preorder l : PreOrder (only_tx l).
Proof.
  split.
  - intros w k _. reflexivity.
  - intros a b c Hab Hbc k Hk. rewrite (Hbc k Hk). apply Hab, Hk.
Qed.

Global Instance only_tx_accounts l : AllowsAccounts (only_tx l).
Proof. intros w f k _. reflexivity. Qed.
Global Instance only_tx_queue l : AllowsQueue (only_tx l).
Proof. intros w f k _. reflexivity. Qed.
Global Instance only_tx_error_log l : AllowsErrorLog (only_tx l).
Proof. intros w f k _. reflexivity. Qed.
Global Instance only_tx_audit_log l : AllowsAuditLog (only_tx l).
Proof. intros w f k _. reflexivity. Qed.
Global Instance only_tx_risk_analyzer l : AllowsRiskAnalyzer (only_tx l).
Proof. intros w f k _. reflexivity. Qed.
Global Instance only_tx_clock l : AllowsClock (only_tx l).
Proof. intros w f k _. reflexivity. Qed.
Global Instance only_tx_transaction l : AllowsTransaction (only_tx l) l.
Proof. intros w t k Hk. simpl. apply upd_other, Hk. Qed.

Lemma lifecycle_step_refl s : lifecycle_step s s.
Proof. destruct s; simpl; auto. Qed.

Global Instance lifecycle_preorder : PreOrder lifecycle.
Proof.
  split.
  - intros w l. apply lifecycle_step_refl.
  - intros a b c Hab Hbc l. specialize (Hab l). specialize (Hbc l).
    destruct (tx_status (transactions a l)), (tx_status (transactions b l));
      simpl in *; intuition (try discriminate; auto).
Qed.

Lemma lifecycle_same_transactions w w' :
  transactions w' = transactions w -> lifecycle w w'.
Proof. intros H l. rewrite H. apply lifecycle_step_refl. Qed.

(** A change confined to a pending transaction is a lifecycle move. *)
Lemma lifecycle_only_pending l w w' :
  tx_status (transactions w l) = PENDING -> only_tx l w w' -> lifecycle w w'.
Proof.
  intros Hp Ho k. destruct (Nat.eq_dec k l) as [->|Hk].
  - rewrite Hp. exact I.
  - rewrite (Ho k Hk). apply lifecycle_step_refl.
Qed.

Lemma cancel_lifecycle id reason w : lifecycle w (exec (cancel id reason) w).
Proof.
  unfold exec, cancel, bind, get, read_tx.
  destruct (_items (queue w) !! id) as [tx|]; [ | apply lifecycle_same_transactions; reflexivity].
  destruct (tx_status (transactions w tx)) eqn:Hs;
    try (apply lifecycle_same_transactions; reflexivity);
    unfold Transaction_cancel, bind, datetime_now, read_tx, write_tx, modify, ret; simpl;
    intros k; simpl; destruct (Nat.eq_dec k tx) as [->|Hk];
    try (rewrite upd_other by exact Hk; apply lifecycle_step_refl);
    rewrite upd_same, Hs; simpl; auto.
Qed.

Lemma requeue_lifecycle tx d w : lifecycle w (exec (requeue tx d) w).
Proof.
  unfold exec, requeue, bind, read_tx, get, modify, ret.
  destruct (tx_status (transactions w tx)) eqn:Hs;
    try (apply lifecycle_same_transactions; reflexivity).
  apply (lifecycle_only_pending tx); [exact Hs | ].
  destruct (0 <? d); simpl; intros k Hk; simpl;
    [apply upd_other, Hk | reflexivity].
Qed.

Lemma process_next_lifecycle now w : lifecycle w (exec (process_next now) w).
Proof.
  unfold exec, process_next.
  rewrite (bind_Return _ _ _ _ _ (pop_ready_run now w)).
  destruct (fst (pop_loop _ _ _ _)) as [tx|] eqn:Hpop.
  - apply pop_loop_Some in Hpop as [Hp _].
    apply (lifecycle_only_pending tx); [exact Hp | ].
    set (w1 := set_queue _ _).
    assert (H1 : only_tx tx w w1).
    { intros k _. unfold w1. simpl. destruct now; reflexivity. }
    etransitivity; [exact H1 | ].
    apply (process_popped_frame (only_tx tx) tx).
    intros d. apply (requeue_frame (only_tx tx) tx).
  - apply lifecycle_same_transactions. simpl. destruct now; reflexivity.
Qed.

Lemma run_all_lifecycle now n w : lifecycle w (exec (run_all now n) w).
Proof.
  revert w. induction n as [|n IH]; intros w; [intros l; apply lifecycle_step_refl | ].
  unfold exec. simpl. unfold bind.
  pose proof (process_next_lifecycle now w) as H. unfold exec in H.
  destruct (process_next now w) as [[[|]|e] w1]; simpl in *; try exact H.
  etransitivity; [exact H | apply IH].
Qed.

Lemma step_lifecycle o w : lifecycle w (step o w).
Proof.
  destruct o; simpl.
  - apply lifecycle_same_transactions.
    apply (add_frame (same transactions)).
  - apply cancel_lifecycle.
  - apply lifecycle_same_transactions.
    apply (pop_ready_frame (same transactions)).
  - apply requeue_lifecycle.
  - apply process_next_lifecycle.
  - apply run_all_lifecycle.
Qed.

(** Through every sequence of queue and processor operations a Processed
    transaction stays Processed and a Cancelled one stays Cancelled, no
    transaction becomes Pending again, and a Failed transaction stays Failed
    or becomes Cancelled.  The last move, made by [cancel], is all that
    stands between the code and a one-way lifecycle. *)
Lemma steps_lifecycle ops w : lifecycle w (steps ops w).
Proof.
  revert w. induction ops as [|o ops IH]; intros w; simpl.
  - reflexivity.
  - etransitivity; [apply step_lifecycle | apply IH].
Qed.

(** ** What does hold of [pop_ready] and [cancel] *)

(** The transaction returned by [pop_ready] is pending, and the heap entry it
    was popped from was due: the half of C2 that the code keeps. *)
Lemma pop_ready_pending_and_entry_due now w tx :
  outcome (pop_ready now) w = Return (Some tx) ->
  tx_status (transactions w tx) = PENDING
  /\ exists e, In e (_heap (queue w))
               /\ _items (queue w) !! qi_tx_id e = Some tx
               /\ qi_scheduled_at e <= time_of now w.
Proof.
  unfold outcome. rewrite pop_ready_run. simpl. intros [= H].
  apply pop_loop_Some in H. exact H.
Qed.

(** [cancel] on a queued transaction that is Failed succeeds and makes it
    Cancelled: the guard stops at Processed and Cancelled. *)
Lemma cancel_failed w id reason tx :
  _items (queue w) !! id = Some tx ->
  tx_status (transactions w tx) = FAILED ->
  outcome (cancel id reason) w = Return true
  /\ tx_status (transactions (exec (cancel id reason) w) tx) = CANCELLED
  /\ failure_reason (transactions (exec (cancel id reason) w) tx) = Some reason.
Proof.
  intros Hi Hs. unfold outcome, exec, cancel, bind, get, read_tx. rewrite Hi, Hs.
  unfold Transaction_cancel, bind, datetime_now, read_tx, write_tx, modify, ret. simpl.
  rewrite upd_same. auto.
Qed.

(** [cancel] leaves a Processed or Cancelled transaction as it is. *)
Lemma cancel_processed_or_cancelled w id reason tx :
  _items (queue w) !! id = Some tx ->
  tx_status (transactions w tx) = PROCESSED \/ tx_status (transactions w tx) = CANCELLED ->
  run (cancel id reason) w = (Return false, w).
Proof.
  intros Hi [Hs|Hs]; unfold run, cancel, bind, get, read_tx; rewrite Hi, Hs; reflexivity.
Qed.

(** ** The claims at concrete inputs *)

(** C1, as stated, fails: "urgent" (priority 10, due at second 5) and
    "early" (priority 0, due at second 3) are both pending and ready at
    second 10, and [pop_ready] returns "early". *)
Lemma pop_ready_lower_priority_first :
  tx_status (transactions world_urgent_and_early 0) = PENDING
  /\ tx_status (transactions world_urgent_and_early 1) = PENDING
  /\ scheduled_at (transactions world_urgent_and_early 0) <= timedelta_seconds 10
  /\ scheduled_at (transactions world_urgent_and_early 1) <= timedelta_seconds 10
  /\ priority (transactions world_urgent_and_early 1)
     < priority (transactions world_urgent_and_early 0)
  /\ outcome (pop_ready (Some (timedelta_seconds 10))) world_urgent_and_early
     = Return (Some 1%nat).
Proof. repeat split; vm_compute; try reflexivity; discriminate. Qed.

(** C1 (amended) at a concrete queue: "plain" (priority 0) was added before
    "urgent" (priority 10), both due at second 3; at second 10 [pop_ready]
    returns "urgent" and leaves the entry of "plain" in the heap. *)
Lemma pop_ready_follows_heap_key_witness :
  In (mkQueueItem (timedelta_seconds 3) 0 1 "plain")
     (_heap (queue (exec (pop_ready (Some (timedelta_seconds 10))) world_urgent_and_plain)))
  /\ outcome (pop_ready (Some (timedelta_seconds 10))) world_urgent_and_plain
     = Return (Some 0%nat).
Proof.
  destruct (pop_ready_follows_heap_key world_urgent_and_plain
              (Some (timedelta_seconds 10))
              (mkQueueItem (timedelta_seconds 3) (-10) 2 "urgent")
              (mkQueueItem (timedelta_seconds 3) 0 1 "plain") 0%nat) as [H _].
  - apply (steps_heap_sorted [OpAdd 1%nat; OpAdd 0%nat]). constructor.
  - vm_compute. auto.
  - vm_compute. auto.
  - vm_compute. reflexivity.
  - vm_compute. reflexivity.
  - right. split; [reflexivity | ]. left. vm_compute. reflexivity.
  - split; [exact H | vm_compute; reflexivity].
Defined.

(** C2 at its failing input: t1, due at time 0, is added and then requeued
    with a delay of 100 seconds while the wall clock shows second 50;
    [pop_ready] at second 10 returns it although it is now scheduled for
    second 150. *)
Theorem pop_ready_returns_rescheduled_transaction :
  outcome (pop_ready (Some (timedelta_seconds 10))) world_requeued = Return (Some 0%nat)
  /\ tx_status (transactions world_requeued 0) = PENDING
  /\ scheduled_at (transactions world_requeued 0) = timedelta_seconds 150
  /\ timedelta_seconds 10 < scheduled_at (transactions world_requeued 0).
Proof. repeat split; vm_compute; reflexivity. Qed.

(** C3 at its failing input: t1 has failed for want of funds; [cancel]
    then succeeds on it and the status goes from Failed to Cancelled. *)
Theorem cancel_turns_failed_into_cancelled :
  tx_status (transactions world_failed 0) = FAILED
  /\ outcome (cancel "t1" "cancelled_by_user") world_failed = Return true
  /\ tx_status (transactions (exec (cancel "t1" "cancelled_by_user") world_failed) 0)
     = CANCELLED.
Proof. repeat split; vm_compute; reflexivity. Qed.

(** C4, as stated, fails: [process_next] is called for second 10 while the
    wall clock shows second 1000; after the first transient failure the
    transaction is pending with one attempt and scheduled for second 1001,
    not second 11. *)
Lemma requeue_uses_the_wall_clock :
  outcome (process_next (Some (timedelta_seconds 10))) world_bad_fee = Return true
  /\ tx_status (transactions
                  (exec (process_next (Some (timedelta_seconds 10))) world_bad_fee) 0)
     = PENDING
  /\ attempts (transactions
                 (exec (process_next (Some (timedelta_seconds 10))) world_bad_fee) 0) = 1
  /\ scheduled_at (transactions
                     (exec (process_next (Some (timedelta_seconds 10))) world_bad_fee) 0)
     = timedelta_seconds 1001
  /\ scheduled_at (transactions
                     (exec (process_next (Some (timedelta_seconds 10))) world_bad_fee) 0)
     <> timedelta_seconds 10 + timedelta_seconds 1.
Proof. repeat split; vm_compute; try reflexivity; discriminate. Qed.

(** C4 (amended) at a concrete world: first transient failure, wall clock at
    second 1000, [process_next] called for second 10. *)
Lemma process_next_retries_transient_errors_witness :
  outcome (process_next (Some (timedelta_seconds 10))) world_bad_fee = Return true
  /\ attempts (transactions
                 (exec (process_next (Some (timedelta_seconds 10))) world_bad_fee) 0) = 1
  /\ scheduled_at (transactions
                     (exec (process_next (Some (timedelta_seconds 10))) world_bad_fee) 0)
     = timedelta_seconds 1000 + timedelta_seconds 1.
Proof.
  destruct (process_next_retries_transient_errors (Some (timedelta_seconds 10))
              world_bad_fee
              (exec (pop_ready (Some (timedelta_seconds 10))) world_bad_fee)
              (exec (pop_ready (Some (timedelta_seconds 10))) world_bad_fee)
              (exec (pop_ready (Some (timedelta_seconds 10))) world_bad_fee)
              0%nat (mkExn ValueError "could not convert string to float: 'abc'"))
    as (Hret & Hatt & _ & Hreq).
  - vm_compute. reflexivity.
  - vm_compute. reflexivity.
  - vm_compute. reflexivity.
  - reflexivity.
  - vm_compute. discriminate.
  - split; [exact Hret | ]. split; [exact Hatt | ].
    destruct Hreq as (_ & Hsched & _); [vm_compute; discriminate | exact Hsched].
Defined.

(** C5 at a concrete world: three assessments for sender A at 12:00:00,
    12:00:10 and 12:00:20 with the default configuration. *)
Lemma assess_frequency_rule_witness :
  exists ra1 res1 ra2 res2 ra3 reasons ex,
    run (assess new_RiskAnalyzer (PyFloat 1) RUB (PyAccount 0) (PyAccount 1)
           (Some (timedelta_seconds 43200))) world_transfer
      = (Return (ra1, res1), world_transfer)
    /\ run (assess ra1 (PyFloat 1) RUB (PyAccount 0) (PyAccount 1)
              (Some (timedelta_seconds 43210))) world_transfer
       = (Return (ra2, res2), world_transfer)
    /\ run (assess ra2 (PyFloat 1) RUB (PyAccount 0) (PyAccount 1)
              (Some (timedelta_seconds 43220))) world_transfer
       = (Return (ra3, (HIGH, reasons, ex)), world_transfer)
    /\ In reason_frequent reasons.
Proof.
  apply (assess_frequency_rule world_transfer new_RiskAnalyzer 0).
  - vm_compute. discriminate.
  - vm_compute. discriminate.
  - vm_compute. discriminate.
  - vm_compute. discriminate.
  - vm_compute. discriminate.
Defined.

(** C6 at the world of the claim, with the default rates of the processor. *)
Lemma internal_transfer_rub_to_usd_witness :
  exists w',
    run (_process_transaction 0) world_transfer = (Return tt, w')
    /\ (_balance (accounts w' 0) == 900)%Q
    /\ (_balance (accounts w' 1) == 1)%Q.
Proof.
  apply (internal_transfer_rub_to_usd world_transfer 0 0 1 100 0 (1 # 100));
    vm_compute; reflexivity.
Defined.



(** C8 at a concrete world: the sender of t1 has no money. *)
Lemma process_next_converts_terminal_errors_witness :
  outcome (process_next (Some 0)) world_poor_queued = Return true
  /\ tx_status (transactions (exec (process_next (Some 0)) world_poor_queued) 0) = FAILED
  /\ failure_reason (transactions (exec (process_next (Some 0)) world_poor_queued) 0)
     = Some msg_no_funds_transfer
  /\ error_log (exec (process_next (Some 0)) world_poor_queued)
     = [("t1: InsufficientFundsError: " ++ msg_no_funds_transfer)%string].
Proof.
  destruct (process_next_converts_terminal_errors (Some 0) world_poor_queued) as [_ H].
  apply (H 0%nat (exec (pop_ready (Some 0)) world_poor_queued)
           (exec (pop_ready (Some 0)) world_poor_queued)
           (exec (pop_ready (Some 0)) world_poor_queued)
           (mkExn InsufficientFundsError msg_no_funds_transfer));
    vm_compute; reflexivity.
Defined.

(** C9 at a concrete world: t1 was added and has failed; adding another
    transaction object with the id t1 is rejected. *)
Lemma add_same_id_always_rejected_witness :
  _items (queue world_failed) !! "t1" = Some 0%nat
  /\ run (add 1) world_failed = (Raise (mkExn ValueError msg_duplicate), world_failed).
Proof.
  apply (add_same_id_always_rejected
           (fresh_world accounts_poor_A transfer_A_B None (fun _ => 0))
           0 1 [OpProcessNext (Some 0)]);
    vm_compute; reflexivity.
Defined.



(** The arithmetic of the C6 trace in IEEE binary64, the [float] of the
    source: the debit 1000.0 - 100.0, the conversion 100.0 * (1.0 / 100.0)
    (the default rate RUB->USD, which is the float 0.01) and the credit
    0.0 + 1.0 are 900.0, 1.0 and 1.0 exactly, as with the rationals of the
    embedding. *)
Module Binary64.
Import PrimFloat.

Remark transfer_arithmetic_is_exact :
  ((1000 - 100 =? 900) = true
   /\ (100 * (1 / 100) =? 1) = true
   /\ (0 + 1 =? 1) = true)%float.
Proof. repeat split; vm_compute; reflexivity. Qed.

End Binary64.

(** * Further properties of the code *)

(** ** What the processor does to accounts *)

(** A relation that [deposit] and [withdraw] keep, and that does not look
    at anything but accounts, is kept by every operation. *)
Section AccountRelations.
Context (R : World -> World -> Prop) `{!PreOrder R}
  `{!AllowsTransactions R} `{!AllowsQueue R} `{!AllowsClock R}
  `{!AllowsErrorLog R} `{!AllowsAuditLog R} `{!AllowsRiskAnalyzer R}.
Hypothesis deposit_keeps : forall l a, preserves R (deposit l a).
Hypothesis withdraw_keeps : forall l a, preserves R (withdraw l a).

Lemma _process_transaction_keeps tx : preserves R (_process_transaction tx).
Proof. unfold _process_transaction, withdraw_amount_then_fee. frame. Qed.

Lemma process_popped_keeps tx now : preserves R (process_popped tx now).
Proof.
  pose proof _process_transaction_keeps.
  unfold process_popped, on_terminal_error, on_transient_error. frame.
Qed.

Lemma process_next_keeps now : preserves R (process_next now).
Proof. pose proof process_popped_keeps. unfold process_next. frame. Qed.

Lemma run_all_keeps now n : preserves R (run_all now n).
Proof.
  induction n as [|n IH]; simpl.
  - apply preserves_ret; assumption.
  - apply preserves_bind; [assumption | apply process_next_keeps | ].
    intros [|]; [exact IH | apply preserves_ret; assumption].
Qed.

Lemma steps_keep ops w : R w (steps ops w).
Proof.
  revert w. induction ops as [|o ops IH]; intros w; simpl; [reflexivity | ].
  etransitivity; [ | apply IH].
  destruct o; simpl; unfold exec.
  - apply add_frame; assumption.
  - apply cancel_frame; assumption.
  - apply pop_ready_frame; assumption.
  - apply requeue_frame; try assumption. typeclasses eauto.
  - apply process_next_keeps.
  - apply run_all_keeps.
Qed.
End AccountRelations.

(** [deposit] either raises and leaves the world as it was, or adds a
    positive amount to the balance of an active account. *)
Lemma deposit_cases l amt w :
  (exists e, deposit l amt w = (Raise e, w))
  \/ (status (accounts w l) = ACTIVE /\ (0 < amt)%Q
      /\ deposit l amt w
         = (Return tt,
            set_accounts (upd (accounts w) l
                            (set_balance (_balance (accounts w l) + amt)%Q
                               (accounts w l))) w)).
Proof.
  unfold deposit, _ensure_active, _validate_amount, bind, read_account,
    write_account, modify, ret, raise.
  destruct (status (accounts w l)); simpl; eauto.
  destruct (Qle_bool amt 0) eqn:E; simpl; eauto.
  right. split; [reflexivity | ]. split; [apply Qle_bool_false_inv, E | reflexivity].
Qed.

(** [withdraw] either raises and leaves the world as it was, or takes a
    positive amount (plus the account fee, on a premium account) from the
    balance of an active account, within the floor of its class. *)
Lemma withdraw_cases l amt w :
  (exists e, withdraw l amt w = (Raise e, w))
  \/ (exists b,
        status (accounts w l) = ACTIVE /\ (0 < amt)%Q
        /\ withdraw l amt w
           = (Return tt,
              set_accounts (upd (accounts w) l (set_balance b (accounts w l))) w)
        /\ match kind (accounts w l) with
           | BankAccount | InvestmentAccount _ _ _ =>
               b = (_balance (accounts w l) - amt)%Q /\ (0 <= b)%Q
           | SavingsAccount min_bal _ =>
               b = (_balance (accounts w l) - amt)%Q /\ (min_bal <= b)%Q
           | PremiumAccount overdraft fee =>
               b = (_balance (accounts w l) - (amt + fee))%Q /\ (- overdraft <= b)%Q
           end).
Proof.
  unfold withdraw, bind, read_account. cbv beta iota.
  destruct (kind (accounts w l)) as [|m r|od f|s b e];
    unfold BankAccount_withdraw, SavingsAccount_withdraw, PremiumAccount_withdraw,
      _ensure_active, _validate_amount, bind, read_account, write_account, modify,
      ret, raise;
    destruct (Qle_bool amt 0) eqn:Ea; simpl;
    destruct (status (accounts w l)); simpl; eauto;
    match goal with
    | |- context [Qltb ?x ?y] => destruct (Qltb x y) eqn:Eb
    end; simpl; eauto;
    right; eexists; (split; [reflexivity | ]);
    (split; [apply Qle_bool_false_inv, Ea | ]);
    (split; [reflexivity | ]);
    unfold Qltb in Eb; apply negb_false_iff, Qle_bool_iff in Eb;
    (split; [reflexivity | lra]).
Qed.

Lemma same_but_balance_refl a : same_but_balance a a.
Proof. unfold same_but_balance. auto. Qed.

Lemma same_but_balance_set b a : same_but_balance a (set_balance b a).
Proof. unfold same_but_balance. simpl. auto. Qed.

Global Instance accounts_keep_shape_preorder : PreOrder accounts_keep_shape.
Proof.
  split.
  - intros w l. apply same_but_balance_refl.
  - intros a b c Hab Hbc l. specialize (Hab l). specialize (Hbc l).
    unfold same_but_balance in *. intuition congruence.
Qed.

Global Instance limits_kept_preorder : PreOrder limits_kept.
Proof.
  split.
  - intros w H. exact H.
  - intros a b c Hab Hbc H. apply Hbc, Hab, H.
Qed.

Global Instance inactive_untouched_preorder : PreOrder inactive_untouched.
Proof.
  split.
  - intros w l _. reflexivity.
  - intros a b c Hab Hbc l H. rewrite <- (Hab l H). apply Hbc.
    rewrite (Hab l H). exact H.
Qed.

(** None of the three relations looks at anything but accounts. *)
Ltac accounts_only :=
  first [ intros ? ? ? ; apply same_but_balance_refl
        | intros ? ? H; exact H
        | intros ? ? ? ?; reflexivity ].

Global Instance accounts_keep_shape_transactions : AllowsTransactions accounts_keep_shape.
Proof. accounts_only. Qed.
Global Instance accounts_keep_shape_queue : AllowsQueue accounts_keep_shape.
Proof. accounts_only. Qed.
Global Instance accounts_keep_shape_clock : AllowsClock accounts_keep_shape.
Proof. accounts_only. Qed.
Global Instance accounts_keep_shape_error_log : AllowsErrorLog accounts_keep_shape.
Proof. accounts_only. Qed.
Global Instance accounts_keep_shape_audit_log : AllowsAuditLog accounts_keep_shape.
Proof. accounts_only. Qed.
Global Instance accounts_keep_shape_risk : AllowsRiskAnalyzer accounts_keep_shape.
Proof. accounts_only. Qed.

Global Instance limits_kept_transactions : AllowsTransactions limits_kept.
Proof. accounts_only. Qed.
Global Instance limits_kept_queue : AllowsQueue limits_kept.
Proof. accounts_only. Qed.
Global Instance limits_kept_clock : AllowsClock limits_kept.
Proof. accounts_only. Qed.
Global Instance limits_kept_error_log : AllowsErrorLog limits_kept.
Proof. accounts_only. Qed.
Global Instance limits_kept_audit_log : AllowsAuditLog limits_kept.
Proof. accounts_only. Qed.
Global Instance limits_kept_risk : AllowsRiskAnalyzer limits_kept.
Proof. accounts_only. Qed.

Global Instance inactive_untouched_transactions : AllowsTransactions inactive_untouched.
Proof. accounts_only. Qed.
Global Instance inactive_untouched_queue : AllowsQueue inactive_untouched.
Proof. accounts_only. Qed.
Global Instance inactive_untouched_clock : AllowsClock inactive_untouched.
Proof. accounts_only. Qed.
Global Instance inactive_untouched_error_log : AllowsErrorLog inactive_untouched.
Proof. accounts_only. Qed.
Global Instance inactive_untouched_audit_log : AllowsAuditLog inactive_untouched.
Proof. accounts_only. Qed.
Global Instance inactive_untouched_risk : AllowsRiskAnalyzer inactive_untouched.
Proof. accounts_only. Qed.

(** What a write of a new balance at [l] does to each relation. *)
Lemma set_balance_keeps_shape w l b :
  accounts_keep_shape w
    (set_accounts (upd (accounts w) l (set_balance b (accounts w l))) w).
Proof.
  intros k. simpl. destruct (Nat.eq_dec k l) as [->|Hk].
  - rewrite upd_same. apply same_but_balance_set.
  - rewrite upd_other by exact Hk. apply same_but_balance_refl.
Qed.

Lemma set_balance_untouched w l b :
  status (accounts w l) = ACTIVE ->
  inactive_untouched w
    (set_accounts (upd (accounts w) l (set_balance b (accounts w l))) w).
Proof.
  intros Hs k Hk. simpl. apply upd_other. intros ->. contradiction.
Qed.

Lemma set_balance_limits w l b :
  within_limits (set_balance b (accounts w l)) ->
  limits_kept w
    (set_accounts (upd (accounts w) l (set_balance b (accounts w l))) w).
Proof.
  intros Hb H k. simpl. destruct (Nat.eq_dec k l) as [->|Hk].
  - rewrite upd_same. exact Hb.
  - rewrite upd_other by exact Hk. apply H.
Qed.

Lemma deposit_keeps_shape l a : preserves accounts_keep_shape (deposit l a).
Proof.
  intros w. destruct (deposit_cases l a w) as [[e ->]|(_ & _ & ->)]; simpl.
  - reflexivity.
  - apply set_balance_keeps_shape.
Qed.

Lemma withdraw_keeps_shape l a : preserves accounts_keep_shape (withdraw l a).
Proof.
  intros w. destruct (withdraw_cases l a w) as [[e ->]|(b & _ & _ & -> & _)]; simpl.
  - reflexivity.
  - apply set_balance_keeps_shape.
Qed.

Lemma deposit_untouched l a : preserves inactive_untouched (deposit l a).
Proof.
  intros w. destruct (deposit_cases l a w) as [[e ->]|(Hs & _ & ->)]; simpl.
  - reflexivity.
  - apply set_balance_untouched, Hs.
Qed.

Lemma withdraw_untouched l a : preserves inactive_untouched (withdraw l a).
Proof.
  intros w. destruct (withdraw_cases l a w) as [[e ->]|(b & Hs & _ & -> & _)]; simpl.
  - reflexivity.
  - apply set_balance_untouched, Hs.
Qed.

Lemma deposit_limits l a : preserves limits_kept (deposit l a).
Proof.
  intros w. destruct (deposit_cases l a w) as [[e ->]|(_ & Ha & ->)]; simpl.
  - reflexivity.
  - intros H. apply set_balance_limits; [ | exact H].
    specialize (H l). unfold within_limits in *. simpl.
    destruct (kind (accounts w l)); lra.
Qed.

Lemma withdraw_limits l a : preserves limits_kept (withdraw l a).
Proof.
  intros w. destruct (withdraw_cases l a w) as [[e ->]|(b & _ & _ & -> & Hb)]; simpl.
  - reflexivity.
  - intros H. apply set_balance_limits; [ | exact H].
    unfold within_limits. simpl.
    destruct (kind (accounts w l)); apply Hb.
Qed.

(** X1. Whatever the caller does with the queue and the processor, an
    account keeps its id, owner, status, currency and class (with the
    parameters of the class): balances are all that execution changes. *)
Theorem operations_change_balances_only (ops : list Op) (w : World) (l : nat) :
  acc_id (accounts (steps ops w) l) = acc_id (accounts w l)
  /\ owner (accounts (steps ops w) l) = owner (accounts w l)
  /\ status (accounts (steps ops w) l) = status (accounts w l)
  /\ currency (accounts (steps ops w) l) = currency (accounts w l)
  /\ kind (accounts (steps ops w) l) = kind (accounts w l).
Proof.
  apply (steps_keep accounts_keep_shape deposit_keeps_shape withdraw_keeps_shape).
Qed.

(** X2. In exact arithmetic on finite numbers, no balance is driven under
    the floor of its account: if every account starts at or above its floor
    (zero for plain and investment accounts, [min_balance] for savings
    accounts, minus [overdraft_limit] for premium accounts), so it is after
    any sequence of operations.  An amount that is NaN, which every
    comparison of the code lets through, is outside the embedding and
    outside this statement. *)
Theorem operations_respect_balance_floors (ops : list Op) (w : World) :
  (forall l, within_limits (accounts w l)) ->
  forall l, within_limits (accounts (steps ops w) l).
Proof.
  apply (steps_keep limits_kept deposit_limits withdraw_limits).
Qed.

(** X3. A frozen or closed account is never touched: after any sequence
    of operations it is exactly as before, balance included. *)
Theorem operations_leave_inactive_accounts (ops : list Op) (w : World) (l : nat) :
  status (accounts w l) <> ACTIVE ->
  accounts (steps ops w) l = accounts w l.
Proof.
  apply (steps_keep inactive_untouched deposit_untouched withdraw_untouched).
Qed.

(** ** Executing transfers *)


(** The total fee the processor works with, from a numeric [fee_fixed]. *)
Lemma fee_total_run fee t w :
  exists fee0,
    py_float (if py_truthy (PyFloat fee) then PyFloat fee else PyFloat 0) w
    = (Return fee0, w)
    /\ ((if is_external t then fee0 + external_fee_fixed (config w) else fee0)
        == fee_total (config w) t fee)%Q.
Proof.
  destruct (fee_float_run fee w) as (fee0 & Hrun & Heq).
  exists fee0. split; [exact Hrun | ].
  unfold fee_total. destruct (is_external t); lra.
Qed.

(** X4. A transaction whose amount is not a positive number is refused with
    InvalidOperationError before anything is looked at or changed: an amount
    that is zero or negative, or a value on which [float()] raises TypeError
    or ValueError. *)
Theorem bad_amount_is_refused_unchanged (w : World) (tx : nat) :
  (exists amt, amount (transactions w tx) = PyFloat amt /\ (amt <= 0)%Q)
  \/ (exists truthy e, amount (transactions w tx) = PyNonNumeric truthy e
                       /\ is_type_or_value_error (exn_class e) = true) ->
  exists msg,
    run (_process_transaction tx) w = (Raise (mkExn InvalidOperationError msg), w).
Proof.
  intros H. unfold run, _process_transaction.
  mret. mret. destruct (tx_type (transactions w tx)). mret.
  destruct H as [(amt & Ha & Hle)|(b & e & Ha & He)]; rewrite Ha.
  - mret. rewrite Qle_bool_true by exact Hle. eexists.
    erewrite bind_Raise; [ | reflexivity]. reflexivity.
  - eexists. erewrite bind_Raise; [reflexivity | ].
    unfold try_except, py_float, reraise. rewrite He. reflexivity.
Qed.

(** X5. A transaction with neither sender nor recipient is refused with
    InvalidOperationError and nothing changes. *)
Theorem transfer_between_nobody_is_refused (w : World) (tx : nat) (amt fee : Q) :
  sender (transactions w tx) = PyNone ->
  recipient (transactions w tx) = PyNone ->
  amount (transactions w tx) = PyFloat amt ->
  fee_fixed (transactions w tx) = PyFloat fee ->
  exists msg,
    run (_process_transaction tx) w = (Raise (mkExn InvalidOperationError msg), w).
Proof.
  intros Hs Hr Ha Hf. unfold run, _process_transaction.
  mret. mret. destruct (tx_type (transactions w tx)). mret.
  rewrite Ha, Hf, Hs, Hr. mret.
  destruct (Qle_bool amt 0) eqn:Eamt.
  - eexists. erewrite bind_Raise; [ | reflexivity]. reflexivity.
  - mret. destruct (fee_total_run fee (transactions w tx) w) as (fee0 & Hfee & _).
    mret_by Hfee. mret. mret. eexists. reflexivity.
Qed.

(** X6. An external debit (no recipient) from an active account is one
    [withdraw] of amount plus total fee, converted into the currency of the
    account: it succeeds, fails and charges exactly as that [withdraw]
    does. *)
Theorem external_debit_is_one_withdraw (w : World) (tx s : nat) (amt fee rate : Q) :
  sender (transactions w tx) = PyAccount s ->
  recipient (transactions w tx) = PyNone ->
  amount (transactions w tx) = PyFloat amt -> (0 < amt)%Q ->
  fee_fixed (transactions w tx) = PyFloat fee ->
  status (accounts w s) = ACTIVE ->
  conversion_rate (config w) (tx_currency (transactions w tx)) (currency (accounts w s))
    = Some rate ->
  exists v,
    (v == (amt + fee_total (config w) (transactions w tx) fee) * rate)%Q
    /\ run (_process_transaction tx) w = run (withdraw s v) w.
Proof.
  intros Hs Hr Ha Hpos Hf Hst Hrate. unfold run, _process_transaction.
  mret. mret. destruct (tx_type (transactions w tx)). mret.
  rewrite Ha, Hf, Hs, Hr. mret.
  rewrite (Qle_bool_false amt 0) by exact Hpos. mret.
  destruct (fee_total_run fee (transactions w tx) w) as (fee0 & Hfee & Hft).
  mret_by Hfee. mret_by (_ensure_account_active_run _ _ Hst). mret.
  cbv beta iota delta [is_not_none andb negb]. mret. mret.
  set (ft := if is_external _ then _ else _) in *.
  destruct (Currency_eqb (tx_currency (transactions w tx)) (currency (accounts w s)))
    eqn:Ecur; simpl.
  - unfold conversion_rate in Hrate. rewrite Ecur in Hrate. inversion Hrate; subst rate.
    exists (amt + ft)%Q. split; [rewrite Hft; ring | ]. mret. reflexivity.
  - destruct (convert_run rate (amt + ft)%Q _ _ w Hrate) as (v & Hv & Hveq).
    exists v. split; [rewrite Hveq, Hft; reflexivity | ]. mret_by Hv. reflexivity.
Qed.





(** ** The outcomes of [process_next] *)

Lemma on_terminal_error_true tx e w :
  exists w', on_terminal_error tx e w = (Return true, w').
Proof. eexists. reflexivity. Qed.

Lemma returns_then_true {A} (m : M A) w :
  returns m -> exists w', bind m (fun _ => ret true) w = (Return true, w').
Proof.
  intros Hm. destruct (Hm w) as [a Ha].
  destruct (m w) as [[a'|e] w1] eqn:E; simpl in Ha; [ | discriminate Ha].
  exists w1. erewrite bind_Return; [ | exact E]. reflexivity.
Qed.

Lemma on_transient_error_true tx e w :
  exists w', on_transient_error tx e w = (Return true, w').
Proof.
  unfold on_transient_error. mret. mret. mret.
  apply returns_then_true. returns_tac.
Qed.

(** Whatever happens to a popped transaction, the answer is [True]. *)
Lemma process_popped_true tx now w :
  exists w', process_popped tx now w = (Return true, w').
Proof.
  unfold process_popped.
  destruct (risk_stage_returns tx now w) as [b Hb].
  destruct (risk_stage tx now w) as [[b'|e] w1] eqn:E; simpl in Hb; [ | discriminate Hb].
  mret_by E. destruct b'; [eexists; reflexivity | ].
  unfold try_except.
  destruct (bind (_process_transaction tx) _ w1) as [[a|e] w2] eqn:Ebody.
  - apply bind_Return_inv in Ebody as (u & w3 & _ & Ebody).
    apply bind_Return_inv in Ebody as (u' & w4 & _ & Ebody).
    inversion Ebody; subst. eexists. reflexivity.
  - destruct (is_terminal (exn_class e));
      [apply on_terminal_error_true | apply on_transient_error_true].
Qed.

(** X10. [process_next] answers [False] exactly when [pop_ready] finds
    nothing, and then it has done nothing more than that [pop_ready]: no
    account, transaction or log is touched. *)
Theorem process_next_false_iff_nothing_ready (now : option datetime) (w : World) :
  (outcome (process_next now) w = Return false
   <-> outcome (pop_ready now) w = Return None)
  /\ (outcome (process_next now) w = Return false ->
      exec (process_next now) w = exec (pop_ready now) w
      /\ accounts (exec (process_next now) w) = accounts w
      /\ transactions (exec (process_next now) w) = transactions w
      /\ error_log (exec (process_next now) w) = error_log w
      /\ audit_log (exec (process_next now) w) = audit_log w).
Proof.
  unfold outcome, exec, process_next.
  rewrite (bind_Return _ _ _ _ _ (pop_ready_run now w)).
  rewrite pop_ready_run. simpl.
  destruct (fst (pop_loop _ _ _ _)) as [tx|].
  - destruct (process_popped_true tx now
                (set_queue
                   (mkQueue
                      (snd (pop_loop (_items (queue w)) (transactions w)
                              (time_of now w) (_heap (queue w))))
                      (_items (queue w)) (_order_seq (queue w)))
                   (tick now w))) as [w' ->].
    simpl. split; [split; intros H; discriminate H | intros H; discriminate H].
  - simpl. split; [split; reflexivity | ]. intros _.
    repeat split; destruct now; reflexivity.
Qed.

(** X11. When the transaction popped by [process_next] passes the risk stage
    and its execution succeeds, [process_next] answers [True], the
    transaction is Processed with no failure reason, [processed_at] and
    [updated_at] are the next reading of the wall clock, the error log is as
    before and nothing is pushed back on the queue. *)
Theorem process_next_marks_processed (now : option datetime) (w w1 w2 w3 : World)
    (tx : nat) :
  run (pop_ready now) w = (Return (Some tx), w1) ->
  run (risk_stage tx now) w1 = (Return false, w2) ->
  run (_process_transaction tx) w2 = (Return tt, w3) ->
  outcome (process_next now) w = Return true
  /\ tx_status (transactions (exec (process_next now) w) tx) = PROCESSED
  /\ failure_reason (transactions (exec (process_next now) w) tx) = None
  /\ processed_at (transactions (exec (process_next now) w) tx)
     = Some (utc_clock w (clock_reads w3))
  /\ updated_at (transactions (exec (process_next now) w) tx)
     = utc_clock w (clock_reads w3)
  /\ accounts (exec (process_next now) w) = accounts w3
  /\ error_log (exec (process_next now) w) = error_log w
  /\ queue (exec (process_next now) w) = queue w1.
Proof.
  intros Hpop Hrisk Hexec. unfold run in *.
  assert (Hclk : utc_clock w3 = utc_clock w).
  { pose proof Hpop as H1. pose proof Hrisk as H2. pose proof Hexec as H3.
    apply (preserves_run (same utc_clock)) in H1; [ | apply pop_ready_frame; typeclasses eauto].
    apply (preserves_run (same utc_clock)) in H2; [ | apply risk_stage_frame; typeclasses eauto].
    apply (preserves_run (same utc_clock)) in H3;
      [ | apply _process_transaction_frame; typeclasses eauto].
    unfold same in *. congruence. }
  assert (Hlog : error_log w3 = error_log w).
  { pose proof Hpop as H1. pose proof Hrisk as H2. pose proof Hexec as H3.
    apply (preserves_run (same error_log)) in H1; [ | apply pop_ready_frame; typeclasses eauto].
    apply (preserves_run (same error_log)) in H2; [ | apply risk_stage_frame; typeclasses eauto].
    apply (preserves_run (same error_log)) in H3;
      [ | apply _process_transaction_frame; typeclasses eauto].
    unfold same in *. congruence. }
  assert (Hq : queue w3 = queue w1).
  { pose proof Hrisk as H2. pose proof Hexec as H3.
    apply (preserves_run (same queue)) in H2; [ | apply risk_stage_frame; typeclasses eauto].
    apply (preserves_run (same queue)) in H3;
      [ | apply _process_transaction_frame; typeclasses eauto].
    unfold same in *. congruence. }
  unfold outcome, exec, process_next, process_popped.
  rewrite (bind_Return _ _ _ _ _ Hpop). rewrite (bind_Return _ _ _ _ _ Hrisk).
  unfold try_except. rewrite (bind_Return _ _ _ _ _ Hexec).
  unfold mark_processed, bind, datetime_now, read_tx, write_tx, modify, ret. simpl.
  rewrite !upd_same. simpl. rewrite Hclk, Hlog, Hq. auto 10.
Qed.

(** The risk stage on a transaction that the analyzer rates High. *)
Lemma risk_stage_blocks (now : option datetime) (w1 wa : World) (tx : nat)
    (ra ra' : RiskAnalyzer) (reasons : list string) (ex : list (string * ExtraValue)) :
  risk_analyzer w1 = Some ra ->
  assess ra (amount (transactions w1 tx)) (tx_currency (transactions w1 tx))
    (sender (transactions w1 tx)) (recipient (transactions w1 tx)) now w1
  = (Return (ra', (HIGH, reasons, ex)), wa) ->
  exists w2,
    risk_stage tx now w1 = (Return true, w2)
    /\ tx_status (transactions w2 tx) = FAILED
    /\ failure_reason (transactions w2 tx) = Some (blocked_reason reasons)
    /\ accounts w2 = accounts wa /\ error_log w2 = error_log wa
    /\ risk_analyzer w2 = Some ra'
    /\ match audit_log wa with
       | None => audit_log w2 = None
       | Some log =>
           exists ts,
             audit_log w2
             = Some (mkAuditLog
                       (records log
                        ++ [mkAuditRecord ERROR (msg_risk ++ "high")%string ts
                              (("tx_id", ExtraStr (tx_id (transactions w1 tx))) :: ex)])%list)
       end.
Proof.
  intros Hra Hassess.
  unfold risk_stage. mret. rewrite Hra. mret. mret_by Hassess.
  cbv beta iota. mret. mret. simpl audit_log.
  destruct (audit_log wa) as [log|] eqn:Eaud.
  - mret. mret. eexists. split; [reflexivity | ].
    simpl. rewrite !upd_same. simpl.
    repeat split; try reflexivity; try (destruct reasons; reflexivity).
    eexists; reflexivity.
  - mret. mret. eexists. split; [reflexivity | ].
    simpl. rewrite !upd_same. simpl.
    repeat split; try reflexivity; try (destruct reasons; reflexivity).
    exact Eaud.
Qed.

(** What [pop_ready] and [assess] leave as it was. *)
Lemma pop_then_assess_same (now : option datetime) (w w1 wa : World) (tx : nat)
    (ra : RiskAnalyzer) a c s r res :
  pop_ready now w = (Return (Some tx), w1) ->
  assess ra a c s r now w1 = (Return res, wa) ->
  transactions w1 = transactions w
  /\ accounts wa = accounts w /\ error_log wa = error_log w
  /\ audit_log wa = audit_log w.
Proof.
  intros Hpop Hassess.
  pose proof (preserves_run (same transactions) _ _ _ _ (pop_ready_frame _ now) Hpop) as H1.
  pose proof (preserves_run (same accounts) _ _ _ _ (pop_ready_frame _ now) Hpop) as H2.
  pose proof (preserves_run (same error_log) _ _ _ _ (pop_ready_frame _ now) Hpop) as H3.
  pose proof (preserves_run (same audit_log) _ _ _ _ (pop_ready_frame _ now) Hpop) as H4.
  pose proof (preserves_run (same accounts) _ _ _ _ (assess_frame _ _ _ _ _ _ _) Hassess)
    as H5.
  pose proof (preserves_run (same error_log) _ _ _ _ (assess_frame _ _ _ _ _ _ _) Hassess)
    as H6.
  pose proof (preserves_run (same audit_log) _ _ _ _ (assess_frame _ _ _ _ _ _ _) Hassess)
    as H7.
  unfold same in *. repeat split; congruence.
Qed.

(** X12. When the risk analyzer rates the popped transaction High,
    [process_next] answers [True] without executing it: the transaction is
    Failed with the blocking reason followed by the reasons of the analyzer,
    no account and no error-log entry changes, the analyzer keeps its new
    state, and an audit log, when there is one, gains one record of level
    ERROR carrying the id of the transaction. *)
Theorem high_risk_blocks_before_execution (now : option datetime) (w w1 wa : World)
    (tx : nat) (ra ra' : RiskAnalyzer) (reasons : list string)
    (ex : list (string * ExtraValue)) :
  run (pop_ready now) w = (Return (Some tx), w1) ->
  risk_analyzer w1 = Some ra ->
  run (assess ra (amount (transactions w tx)) (tx_currency (transactions w tx))
         (sender (transactions w tx)) (recipient (transactions w tx)) now) w1
    = (Return (ra', (HIGH, reasons, ex)), wa) ->
  outcome (process_next now) w = Return true
  /\ tx_status (transactions (exec (process_next now) w) tx) = FAILED
  /\ failure_reason (transactions (exec (process_next now) w) tx)
     = Some (blocked_reason reasons)
  /\ accounts (exec (process_next now) w) = accounts w
  /\ error_log (exec (process_next now) w) = error_log w
  /\ risk_analyzer (exec (process_next now) w) = Some ra'
  /\ match audit_log w with
     | None => audit_log (exec (process_next now) w) = None
     | Some log =>
         exists ts,
           audit_log (exec (process_next now) w)
           = Some (mkAuditLog
                     (records log
                      ++ [mkAuditRecord ERROR (msg_risk ++ "high")%string ts
                            (("tx_id", ExtraStr (tx_id (transactions w tx))) :: ex)])%list)
     end.
Proof.
  intros Hpop Hra Hassess. unfold run in *.
  destruct (pop_then_assess_same now w w1 wa tx ra _ _ _ _ _ Hpop Hassess)
    as (Htx & Hacc & Hlog & Haud).
  rewrite <- Htx in Hassess.
  destruct (risk_stage_blocks now w1 wa tx ra ra' reasons ex Hra Hassess)
    as (w2 & Hrun & Hst & Hfr & Hacc2 & Hlog2 & Hra2 & Haud2).
  unfold outcome, exec, process_next, process_popped.
  rewrite (bind_Return _ _ _ _ _ Hpop). rewrite (bind_Return _ _ _ _ _ Hrun). simpl.
  rewrite Hst, Hfr, Hacc2, Hlog2, Hra2, Hacc, Hlog.
  repeat split; try reflexivity.
  rewrite Haud, Htx in Haud2. exact Haud2.
Qed.

(** ** What [pop_ready] takes from the heap *)

Lemma pop_loop_dropped items txs now h :
  exists pre,
    h = (pre ++ snd (pop_loop items txs now h))%list
    /\ Forall (fun e => qi_scheduled_at e <= now) pre
    /\ match fst (pop_loop items txs now h) with
       | None =>
           Forall (fun e => match items !! qi_tx_id e with
                            | None => True
                            | Some tx => tx_status (txs tx) <> PENDING
                            end) pre
           /\ match snd (pop_loop items txs now h) with
              | [] => True
              | top :: _ => now < qi_scheduled_at top
              end
       | Some tx =>
           exists skipped e,
             pre = (skipped ++ [e])%list
             /\ Forall (fun e => match items !! qi_tx_id e with
                                 | None => True
                                 | Some tx => tx_status (txs tx) <> PENDING
                                 end) skipped
             /\ items !! qi_tx_id e = Some tx
             /\ tx_status (txs tx) = PENDING
       end.
Proof.
  induction h as [|top rest IH]; simpl.
  - exists []. repeat split; constructor.
  - destruct (now <? qi_scheduled_at top) eqn:Edue.
    + apply Z.ltb_lt in Edue. exists []. simpl. repeat split; try constructor. exact Edue.
    + apply Z.ltb_ge in Edue.
      assert (Hskip : match items !! qi_tx_id top with
                      | None => True
                      | Some tx => tx_status (txs tx) <> PENDING
                      end ->
                      exists pre,
                        top :: rest = (pre ++ snd (pop_loop items txs now rest))%list
                        /\ Forall (fun e => qi_scheduled_at e <= now) pre
                        /\ match fst (pop_loop items txs now rest) with
                           | None =>
                               Forall (fun e => match items !! qi_tx_id e with
                                                | None => True
                                                | Some tx => tx_status (txs tx) <> PENDING
                                                end) pre
                               /\ match snd (pop_loop items txs now rest) with
                                  | [] => True
                                  | top :: _ => now < qi_scheduled_at top
                                  end
                           | Some tx =>
                               exists skipped e,
                                 pre = (skipped ++ [e])%list
                                 /\ Forall (fun e => match items !! qi_tx_id e with
                                                     | None => True
                                                     | Some tx => tx_status (txs tx) <> PENDING
                                                     end) skipped
                                 /\ items !! qi_tx_id e = Some tx
                                 /\ tx_status (txs tx) = PENDING
                           end).
      { intros Hstale. destruct IH as (pre & Hpre & Hdue & Hres).
        exists (top :: pre). split; [simpl; f_equal; exact Hpre | ].
        split; [constructor; [exact Edue | exact Hdue] | ].
        destruct (fst (pop_loop items txs now rest)) as [tx|].
        - destruct Hres as (skipped & e & -> & Hsk & Hi & Hp).
          exists (top :: skipped), e. split; [reflexivity | ].
          split; [constructor; [exact Hstale | exact Hsk] | split; assumption].
        - destruct Hres as [Hsk Hhead]. split; [ | exact Hhead].
          constructor; [exact Hstale | exact Hsk]. }
      destruct (items !! qi_tx_id top) as [tx|] eqn:Hi; [ | apply Hskip; exact I].
      destruct (tx_status (txs tx)) eqn:Hp; try (apply Hskip; discriminate).
      exists [top]. simpl. split; [reflexivity | ].
      split; [constructor; [exact Edue | constructor] | ].
      exists [], top. repeat split; try constructor; assumption.
Qed.

(** X13. [pop_ready] takes entries off the front of the heap and nothing
    else: every entry it drops was due; when it returns a transaction, the
    last dropped entry is the one of that transaction, which is pending, and
    the entries dropped before it were stale (unknown id, or a transaction no
    longer pending); when it returns [None], every dropped entry was stale
    and the heap left is empty or has a head that is not due yet.  It never
    raises. *)
Theorem pop_ready_drops_due_stale_entries (now : option datetime) (w : World) :
  exists dropped,
    _heap (queue w) = (dropped ++ _heap (queue (exec (pop_ready now) w)))%list
    /\ Forall (fun e => qi_scheduled_at e <= time_of now w) dropped
    /\ match outcome (pop_ready now) w with
       | Return None =>
           Forall (stale_entry w) dropped
           /\ match _heap (queue (exec (pop_ready now) w)) with
              | [] => True
              | top :: _ => time_of now w < qi_scheduled_at top
              end
       | Return (Some tx) =>
           exists skipped e,
             dropped = (skipped ++ [e])%list
             /\ Forall (stale_entry w) skipped
             /\ _items (queue w) !! qi_tx_id e = Some tx
             /\ tx_status (transactions w tx) = PENDING
       | Raise _ => False
       end.
Proof.
  unfold exec, outcome. rewrite pop_ready_run. simpl.
  exact (pop_loop_dropped (_items (queue w)) (transactions w) (time_of now w)
           (_heap (queue w))).
Qed.

(** X14. A transaction that is not pending is never handed out again:
    whatever queue and processor operations follow, [pop_ready] does not
    return it. *)
Theorem settled_transaction_is_never_popped (ops : list Op) (w : World)
    (now : option datetime) (tx : nat) :
  tx_status (transactions w tx) <> PENDING ->
  outcome (pop_ready now) (steps ops w) <> Return (Some tx).
Proof.
  intros Hs Hpop. apply pop_ready_pending_and_entry_due in Hpop as [Hp _].
  pose proof (steps_lifecycle ops w tx) as Hl. rewrite Hp in Hl.
  destruct (tx_status (transactions w tx)); simpl in Hl;
    [ apply Hs; reflexivity | discriminate Hl | discriminate Hl
    | destruct Hl as [Hl|Hl]; discriminate Hl ].
Qed.

(** X15. [cancel] works once: after a [cancel] that has answered [True],
    a later [cancel] of the same id, after any operations in between and
    with any reason, answers [False] and changes nothing. *)
Theorem cancel_is_idempotent (ops : list Op) (w : World) (id reason reason' : string) :
  outcome (cancel id reason) w = Return true ->
  let w' := steps ops (exec (cancel id reason) w) in
  run (cancel id reason') w' = (Return false, w').
Proof.
  intros Hc w'. unfold outcome, cancel in Hc. unfold bind, get, read_tx in Hc.
  destruct (_items (queue w) !! id) as [tx|] eqn:Hi; [ | discriminate Hc].
  assert (Hst : tx_status (transactions (exec (cancel id reason) w) tx) = CANCELLED).
  { unfold exec, cancel, bind, get, read_tx. rewrite Hi.
    destruct (tx_status (transactions w tx)); try discriminate Hc;
      simpl; rewrite upd_same; reflexivity. }
  assert (Hi1 : _items (queue (exec (cancel id reason) w)) !! id = Some tx).
  { pose proof (step_items_kept (OpCancel id reason) w) as Hk. apply Hk. exact Hi. }
  assert (Hi' : _items (queue w') !! id = Some tx).
  { apply (steps_items_kept ops). exact Hi1. }
  assert (Hst' : tx_status (transactions w' tx) = CANCELLED).
  { pose proof (steps_lifecycle ops (exec (cancel id reason) w) tx) as Hl.
    rewrite Hst in Hl. exact Hl. }
  unfold run, cancel, bind, get, read_tx. rewrite Hi', Hst'. reflexivity.
Qed.

(** ** What a transaction says is never rewritten *)

Lemma same_order_refl t : same_order t t.
Proof. unfold same_order. auto 20. Qed.

Global Instance orders_kept_preorder : PreOrder orders_kept.
Proof.
  split.
  - intros w l. apply same_order_refl.
  - intros a b c Hab Hbc l. specialize (Hab l). specialize (Hbc l).
    unfold same_order in *.
    destruct Hab as (?&?&?&?&?&?&?&?&?&?), Hbc as (?&?&?&?&?&?&?&?&?&?).
    repeat split; congruence.
Qed.

Global Instance orders_kept_accounts : AllowsAccounts orders_kept.
Proof. intros w f l. apply same_order_refl. Qed.
Global Instance orders_kept_queue : AllowsQueue orders_kept.
Proof. intros w f l. apply same_order_refl. Qed.
Global Instance orders_kept_clock : AllowsClock orders_kept.
Proof. intros w f l. apply same_order_refl. Qed.
Global Instance orders_kept_error_log : AllowsErrorLog orders_kept.
Proof. intros w f l. apply same_order_refl. Qed.
Global Instance orders_kept_audit_log : AllowsAuditLog orders_kept.
Proof. intros w f l. apply same_order_refl. Qed.
Global Instance orders_kept_risk : AllowsRiskAnalyzer orders_kept.
Proof. intros w f l. apply same_order_refl. Qed.

(** The writes of one transaction object, looked at from any reference. *)
Ltac orders_at tx l :=
  simpl; unfold upd;
  let E := fresh "E" in
  destruct (Nat.eqb l tx) eqn:E;
  [ apply Nat.eqb_eq in E; subst; rewrite ?Nat.eqb_refl; simpl
  | simpl ];
  unfold same_order; simpl; auto 20.

Lemma mark_failed_orders tx reason : preserves orders_kept (mark_failed tx reason).
Proof. intros w l. unfold mark_failed, bind, datetime_now, read_tx, write_tx, modify. orders_at tx l. Qed.

Lemma mark_processed_orders tx : preserves orders_kept (mark_processed tx).
Proof. intros w l. unfold mark_processed, bind, datetime_now, read_tx, write_tx, modify. orders_at tx l. Qed.

Lemma Transaction_cancel_orders tx reason :
  preserves orders_kept (Transaction_cancel tx reason).
Proof.
  intros w l. unfold Transaction_cancel, bind, datetime_now, read_tx, write_tx, modify.
  orders_at tx l.
Qed.

Lemma cancel_orders id reason : preserves orders_kept (cancel id reason).
Proof.
  unfold cancel. apply preserves_bind; [typeclasses eauto | apply preserves_get; typeclasses eauto | ].
  intros w. destruct (_items (queue w) !! id) as [tx|];
    [ | apply preserves_ret; typeclasses eauto].
  apply preserves_bind; [typeclasses eauto | apply preserves_read_tx; typeclasses eauto | ].
  intros t. destruct (tx_status t); try (apply preserves_ret; typeclasses eauto);
    (apply preserves_bind;
     [ typeclasses eauto | apply Transaction_cancel_orders
     | intros _; apply preserves_ret; typeclasses eauto ]).
Qed.

Lemma requeue_orders tx d : preserves orders_kept (requeue tx d).
Proof.
  intros w l. unfold requeue, bind, read_tx, datetime_now, write_tx, modify, get, ret.
  destruct (tx_status (transactions w tx)); try apply same_order_refl.
  destruct (0 <? d); orders_at tx l.
Qed.

Lemma append_error_log_orders s : preserves orders_kept (append_error_log s).
Proof. apply preserves_append_error_log; typeclasses eauto. Qed.

Lemma on_terminal_error_orders tx e : preserves orders_kept (on_terminal_error tx e).
Proof.
  unfold on_terminal_error.
  apply preserves_bind; [typeclasses eauto | apply mark_failed_orders | intros _].
  frame.
Qed.

Lemma on_transient_error_orders tx e : preserves orders_kept (on_transient_error tx e).
Proof.
  intros w l.
  unfold on_transient_error, bind, read_tx, write_tx, modify, get, ret. simpl.
  destruct (max_retries (config w) <? attempts (transactions w tx) + 1).
  - unfold mark_failed, append_error_log, bind, datetime_now, read_tx, write_tx, modify.
    orders_at tx l.
  - unfold datetime_now. simpl. rewrite !upd_same.
    unfold requeue, bind, read_tx, datetime_now, write_tx, modify, get, ret. simpl.
    rewrite !upd_same. simpl.
    destruct (tx_status (transactions w tx)); simpl;
      try destruct (0 <? 1 * (attempts (transactions w tx) + 1)); orders_at tx l.
Qed.

Lemma risk_stage_orders tx now : preserves orders_kept (risk_stage tx now).
Proof.
  unfold risk_stage.
  repeat first
    [ apply mark_failed_orders
    | frame_step ].
Qed.

Lemma process_popped_orders tx now : preserves orders_kept (process_popped tx now).
Proof.
  unfold process_popped.
  repeat first
    [ apply risk_stage_orders
    | apply mark_processed_orders
    | apply on_terminal_error_orders
    | apply on_transient_error_orders
    | frame_step ].
Qed.

Lemma process_next_orders now : preserves orders_kept (process_next now).
Proof.
  unfold process_next.
  repeat first [ apply process_popped_orders | frame_step ].
Qed.

Lemma run_all_orders now n : preserves orders_kept (run_all now n).
Proof.
  induction n as [|n IH]; simpl.
  - apply preserves_ret; typeclasses eauto.
  - apply preserves_bind; [typeclasses eauto | apply process_next_orders | ].
    intros [|]; [exact IH | apply preserves_ret; typeclasses eauto].
Qed.

Lemma step_orders o w : orders_kept w (step o w).
Proof.
  destruct o; simpl.
  - apply (add_frame orders_kept).
  - apply cancel_orders.
  - apply (pop_ready_frame orders_kept).
  - apply requeue_orders.
  - apply process_next_orders.
  - apply run_all_orders.
Qed.

(** X16. No operation of the queue or the processor rewrites what a
    transaction says: through every sequence of add, cancel, pop_ready,
    requeue, process_next and run_all, the id, type, amount, currency,
    sender, recipient, fixed fee, priority, external flag and creation time
    of every transaction object stay as they were.  Only the status, the
    failure reason, the three other time stamps and the attempt counter
    move. *)
Theorem operations_keep_what_a_transaction_says (ops : list Op) (w : World) (l : nat) :
  tx_id (transactions (steps ops w) l) = tx_id (transactions w l)
  /\ tx_type (transactions (steps ops w) l) = tx_type (transactions w l)
  /\ amount (transactions (steps ops w) l) = amount (transactions w l)
  /\ tx_currency (transactions (steps ops w) l) = tx_currency (transactions w l)
  /\ sender (transactions (steps ops w) l) = sender (transactions w l)
  /\ recipient (transactions (steps ops w) l) = recipient (transactions w l)
  /\ fee_fixed (transactions (steps ops w) l) = fee_fixed (transactions w l)
  /\ priority (transactions (steps ops w) l) = priority (transactions w l)
  /\ is_external (transactions (steps ops w) l) = is_external (transactions w l)
  /\ created_at (transactions (steps ops w) l) = created_at (transactions w l).
Proof.
  assert (H : orders_kept w (steps ops w)).
  { revert w. induction ops as [|o ops IH]; intros w; simpl.
    - reflexivity.
    - etransitivity; [apply step_orders | apply IH]. }
  exact (H l).
Qed.

(** ** [len(queue)] and [list_pending] *)

Lemma filter_ext_elem {A} (P Q : A -> Prop) `{!forall x, Decision (P x)}
    `{!forall x, Decision (Q x)} (l : list A) :
  (forall x, x ∈ l -> (P x <-> Q x)) -> filter P l = filter Q l.
Proof.
  induction l as [|a l IH]; intros Hext; [reflexivity | ].
  assert (Ha : P a <-> Q a) by (apply Hext; left).
  assert (Hl : filter P l = filter Q l)
    by (apply IH; intros x Hx; apply Hext; right; exact Hx).
  destruct (decide (P a)) as [Hp|Hp].
  - rewrite !filter_cons_True by tauto. rewrite Hl. reflexivity.
  - rewrite !filter_cons_False by tauto. exact Hl.
Qed.

Lemma pending_entries_ext w w' :
  _items (queue w') = _items (queue w) ->
  (forall l, tx_status (transactions w' l) = tx_status (transactions w l)) ->
  pending_entries w' = pending_entries w.
Proof.
  intros Hi Hs. unfold pending_entries. rewrite Hi.
  apply list_filter_iff. intros [k v]. simpl. rewrite Hs. reflexivity.
Qed.

(** The count when the status of the transaction under one key moves and
    the transactions under the other keys keep theirs. *)
Lemma pending_count_at (m : gmap string nat) (txs txs' : nat -> Transaction) id tx :
  m !! id = Some tx ->
  (forall k v, m !! k = Some v -> k <> id -> tx_status (txs' v) = tx_status (txs v)) ->
  (length (filter (fun kv => tx_status (txs' kv.2) = PENDING) (map_to_list m))
   + (if decide (tx_status (txs tx) = PENDING) then 1 else 0)
   = length (filter (fun kv => tx_status (txs kv.2) = PENDING) (map_to_list m))
     + (if decide (tx_status (txs' tx) = PENDING) then 1 else 0))%nat.
Proof.
  intros Hi Hoth.
  rewrite <- !(map_to_list_delete m id tx Hi).
  assert (Hrest : filter (fun kv : string * nat => tx_status (txs' kv.2) = PENDING)
                    (map_to_list (delete id m))
                  = filter (fun kv : string * nat => tx_status (txs kv.2) = PENDING)
                      (map_to_list (delete id m))).
  { apply filter_ext_elem. intros [k v] Hin. simpl.
    apply elem_of_map_to_list, lookup_delete_Some in Hin as [Hne Hk].
    rewrite (Hoth k v Hk) by congruence. reflexivity. }
  rewrite !filter_cons. simpl. rewrite Hrest.
  destruct (decide (tx_status (txs' tx) = PENDING)),
    (decide (tx_status (txs tx) = PENDING)); simpl; lia.
Qed.

Lemma __len___run w : __len__ w = (Return (Z.of_nat (length (pending_entries w))), w).
Proof. reflexivity. Qed.

Lemma pop_ready_items now w :
  _items (queue (exec (pop_ready now) w)) = _items (queue w).
Proof. unfold exec. rewrite pop_ready_run. reflexivity. Qed.

Lemma requeue_items tx d w :
  _items (queue (exec (requeue tx d) w)) = _items (queue w).
Proof.
  unfold exec, requeue, bind, read_tx, datetime_now, write_tx, modify, get, ret.
  destruct (tx_status (transactions w tx)); try reflexivity.
  destruct (0 <? d); reflexivity.
Qed.

Lemma requeue_statuses tx d w l :
  tx_status (transactions (exec (requeue tx d) w) l) = tx_status (transactions w l).
Proof.
  unfold exec, requeue, bind, read_tx, datetime_now, write_tx, modify, get, ret.
  destruct (tx_status (transactions w tx)) eqn:Hs; try reflexivity.
  destruct (0 <? d); simpl; [ | reflexivity].
  unfold upd. destruct (Nat.eqb l tx) eqn:E; [ | reflexivity].
  apply Nat.eqb_eq in E. subst. reflexivity.
Qed.

(** X17. [len(queue)] and [list_pending()] look at the id map, not at the
    heap: [pop_ready] and [requeue] leave both as they were, so a
    transaction that [pop_ready] has handed out is still counted and listed
    until its status moves. *)
Theorem len_ignores_the_heap (now : option datetime) (tx : nat) (d : Z) (w : World) :
  outcome __len__ (exec (pop_ready now) w) = outcome __len__ w
  /\ outcome list_pending (exec (pop_ready now) w) = outcome list_pending w
  /\ outcome __len__ (exec (requeue tx d) w) = outcome __len__ w
  /\ outcome list_pending (exec (requeue tx d) w) = outcome list_pending w.
Proof.
  assert (H1 : pending_entries (exec (pop_ready now) w) = pending_entries w).
  { apply pending_entries_ext; [apply pop_ready_items | ].
    intros l. unfold exec.
    rewrite (pop_ready_frame (same transactions) now w). reflexivity. }
  assert (H2 : pending_entries (exec (requeue tx d) w) = pending_entries w).
  { apply pending_entries_ext; [apply requeue_items | apply requeue_statuses]. }
  unfold outcome, __len__, list_pending, bind, get, ret. simpl.
  rewrite H1, H2. auto.
Qed.

(** X18. A successful [add] raises [len(queue)] by one when the transaction
    is pending and leaves it as it was when the transaction is not: [add]
    takes a transaction of any status into the id map. *)
Theorem add_counts_pending_transactions (w w' : World) (tx : nat) :
  run (add tx) w = (Return tt, w') ->
  outcome __len__ w'
  = Return (Z.of_nat (length (pending_entries w))
            + (if decide (tx_status (transactions w tx) = PENDING) then 1 else 0)).
Proof.
  unfold run, add, bind, read_tx, get. intros H.
  destruct (_items (queue w) !! tx_id (transactions w tx)) eqn:Hi; [discriminate H | ].
  inversion H; subst w'; clear H.
  unfold outcome, __len__, bind, get, ret, pending_entries. simpl.
  rewrite (map_to_list_insert _ _ _ Hi). rewrite filter_cons. simpl.
  destruct (decide (tx_status (transactions w tx) = PENDING)); simpl; f_equal; lia.
Qed.

(** X19. [list_pending()] has no id twice, has [len(queue)] elements, and
    holds exactly the keys of the id map whose transaction is pending. *)
Theorem list_pending_agrees_with_len (w : World) :
  exists ids,
    outcome list_pending w = Return ids
    /\ NoDup ids
    /\ outcome __len__ w = Return (Z.of_nat (length ids))
    /\ forall id, id ∈ ids <->
                  exists tx, _items (queue w) !! id = Some tx
                             /\ tx_status (transactions w tx) = PENDING.
Proof.
  exists ((pending_entries w).*1). split; [reflexivity | ]. split.
  - unfold pending_entries.
    eapply sublist_NoDup;
      [ apply (NoDup_fst_map_to_list (_items (queue w)))
      | apply fmap_sublist, sublist_filter ].
  - split.
    + unfold outcome, __len__, bind, get, ret. simpl. rewrite length_fmap. reflexivity.
    + intros id. unfold pending_entries. rewrite list_elem_of_fmap. split.
      * intros [[k v] [-> Hin]]. apply list_elem_of_filter in Hin as [Hp Hin].
        apply elem_of_map_to_list in Hin. exists v. split; assumption.
      * intros (tx & Hi & Hp). exists (id, tx). split; [reflexivity | ].
        apply list_elem_of_filter. split; [exact Hp | apply elem_of_map_to_list, Hi].
Qed.

Lemma cancel_items id reason w :
  _items (queue (exec (cancel id reason) w)) = _items (queue w).
Proof. apply (cancel_frame (same (fun w => _items (queue w))) id reason w). Qed.

Lemma process_next_items now w :
  _items (queue (exec (process_next now) w)) = _items (queue w).
Proof.
  apply (process_next_frame (same (fun w => _items (queue w))) now).
  - intros n w0. apply pop_ready_items.
  - intros tx d w0. apply requeue_items.
Qed.

Lemma run_all_items now n w :
  _items (queue (exec (run_all now n) w)) = _items (queue w).
Proof.
  apply (run_all_frame (same (fun w => _items (queue w))) now n).
  - intros n0 w0. apply pop_ready_items.
  - intros tx d w0. apply requeue_items.
Qed.

Lemma step_ids_agree o w : ids_agree w -> ids_agree (step o w).
Proof.
  intros H k tx Hk.
  destruct (step_orders o w tx) as [Hid _]. rewrite Hid.
  destruct o as [t|id reason|now|t d|now|now n]; simpl in Hk.
  - unfold exec, add, bind, read_tx, get in Hk.
    destruct (_items (queue w) !! tx_id (transactions w t)) eqn:Hi;
      simpl in Hk; [apply H, Hk | ].
    destruct (decide (k = tx_id (transactions w t))) as [->|Hne].
    + rewrite lookup_insert_eq in Hk. inversion Hk; subst. reflexivity.
    + rewrite lookup_insert_ne in Hk by congruence. apply H, Hk.
  - rewrite cancel_items in Hk. apply H, Hk.
  - rewrite pop_ready_items in Hk. apply H, Hk.
  - rewrite requeue_items in Hk. apply H, Hk.
  - rewrite process_next_items in Hk. apply H, Hk.
  - rewrite run_all_items in Hk. apply H, Hk.
Qed.

Lemma ids_agree_empty w : _items (queue w) = ∅ -> ids_agree w.
Proof. intros He k tx Hk. rewrite He, lookup_empty in Hk. discriminate Hk. Qed.

(** X20. Every key of the id map of the queue is the id of the transaction
    object stored under it, and stays so through every sequence of queue and
    processor operations: [add] files a transaction under its own id, and
    nothing rewrites an id or the id map afterwards. *)
Theorem queue_keys_are_transaction_ids (ops : list Op) (w : World) :
  ids_agree w -> ids_agree (steps ops w).
Proof.
  revert w. induction ops as [|o ops IH]; intros w H; simpl.
  - exact H.
  - apply IH, step_ids_agree, H.
Qed.

Lemma count_after_one_move w w' id tx :
  ids_agree w ->
  _items (queue w) !! id = Some tx ->
  _items (queue w') = _items (queue w) ->
  only_tx tx w w' ->
  (length (pending_entries w')
   + (if decide (tx_status (transactions w tx) = PENDING) then 1 else 0)
   = length (pending_entries w)
     + (if decide (tx_status (transactions w' tx) = PENDING) then 1 else 0))%nat.
Proof.
  intros Hwf Hi Hitems Honly. unfold pending_entries. rewrite Hitems.
  apply (pending_count_at _ _ _ id tx); [exact Hi | ].
  intros k v Hk Hne. rewrite Honly; [reflexivity | ].
  intros ->. apply Hne. rewrite <- (Hwf _ _ Hk). apply Hwf, Hi.
Qed.

(** X21. A [cancel] that answers [True] takes one off [len(queue)] when the
    transaction was pending, and leaves [len(queue)] as it was when the
    transaction was Failed, in a queue whose keys are the ids of its
    transactions. *)
Theorem cancel_takes_one_off_the_count (w : World) (id reason : string) :
  ids_agree w ->
  outcome (cancel id reason) w = Return true ->
  exists tx,
    _items (queue w) !! id = Some tx
    /\ outcome __len__ (exec (cancel id reason) w)
       = Return (Z.of_nat (length (pending_entries w))
                 - (if decide (tx_status (transactions w tx) = PENDING) then 1 else 0)).
Proof.
  intros Hwf Hc.
  assert (Hi : exists tx, _items (queue w) !! id = Some tx
                          /\ tx_status (transactions (exec (cancel id reason) w) tx)
                             = CANCELLED
                          /\ only_tx tx w (exec (cancel id reason) w)).
  { unfold outcome, cancel in Hc. unfold bind, get, read_tx in Hc.
    unfold exec, cancel, bind, get, read_tx.
    destruct (_items (queue w) !! id) as [tx|]; [ | discriminate Hc].
    exists tx. split; [reflexivity | ].
    destruct (tx_status (transactions w tx)); try discriminate Hc; simpl;
      (split; [rewrite upd_same; reflexivity | intros k Hk; simpl; apply upd_other, Hk]). }
  destruct Hi as (tx & Hi & Hst & Honly). exists tx. split; [exact Hi | ].
  pose proof (count_after_one_move w _ id tx Hwf Hi (cancel_items id reason w) Honly) as Hn.
  rewrite Hst in Hn.
  unfold outcome, __len__, bind, get, ret. simpl. f_equal.
  destruct (decide (tx_status (transactions w tx) = PENDING)); simpl in Hn; lia.
Qed.

Lemma process_next_only_tx now w tx :
  outcome (pop_ready now) w = Return (Some tx) ->
  only_tx tx w (exec (process_next now) w).
Proof.
  unfold outcome, exec, process_next. rewrite pop_ready_run. simpl. intros [= Hpop].
  rewrite (bind_Return _ _ _ _ _ (pop_ready_run now w)). rewrite Hpop.
  set (w1 := set_queue _ _).
  assert (H1 : only_tx tx w w1).
  { intros k _. unfold w1. simpl. destruct now; reflexivity. }
  etransitivity; [exact H1 | ].
  apply (process_popped_frame (only_tx tx) tx).
  intros d. apply (requeue_frame (only_tx tx) tx).
Qed.

(** X22. [process_next] takes the transaction it has popped off
    [len(queue)], unless it has pushed it back for another attempt: the
    count goes down by one when the transaction ends Processed or Failed and
    stays when the transaction is still pending. *)
Theorem process_next_takes_one_off_the_count (now : option datetime) (w : World)
    (tx : nat) :
  ids_agree w ->
  outcome (pop_ready now) w = Return (Some tx) ->
  outcome __len__ (exec (process_next now) w)
  = Return (Z.of_nat (length (pending_entries w))
            - (if decide (tx_status (transactions (exec (process_next now) w) tx) = PENDING)
               then 0 else 1)).
Proof.
  intros Hwf Hpop.
  pose proof (process_next_only_tx now w tx Hpop) as Honly.
  apply pop_ready_pending_and_entry_due in Hpop as (Hp & e & _ & Hi & _).
  pose proof (count_after_one_move w _ (qi_tx_id e) tx Hwf Hi
                (process_next_items now w) Honly) as Hn.
  rewrite Hp in Hn.
  unfold outcome, __len__, bind, get, ret. simpl. f_equal.
  destruct (decide (tx_status (transactions (exec (process_next now) w) tx) = PENDING));
    simpl in Hn; lia.
Qed.

(** ** The rules of [RiskAnalyzer.assess] *)

Lemma _account_id_run o w : exists sid, _account_id o w = (Return sid, w).
Proof. destruct o; eexists; reflexivity. Qed.

Lemma _owner_name_run o w : exists n, _owner_name o w = (Return n, w).
Proof. destruct o; eexists; reflexivity. Qed.

Lemma _account_id_tick o now w sid :
  outcome (_account_id o) w = Return sid ->
  _account_id o (tick now w) = (Return sid, tick now w).
Proof.
  unfold outcome. destruct o; simpl; intros [= <-]; try reflexivity.
  unfold bind, read_account, ret. rewrite tick_accounts. reflexivity.
Qed.

(** One call of [assess], rule by rule. *)
Lemma assess_run ra a c s r now w sid rid :
  outcome (_account_id s) w = Return sid ->
  outcome (_account_id r) w = Return rid ->
  exists ex,
    assess ra a c s r now w
    = (Return
         (mkRiskAnalyzer (risk_config ra)
            (if nonempty sid
             then <[sid := pruned_history (risk_config ra) (time_of now w)
                             (default [] (_history ra !! sid))]> (_history ra)
             else _history ra)
            (if nonempty sid
             then <[sid := if new_recipient_signal ra sid rid
                           then {[rid]} ∪ default ∅ (_known_recipients ra !! sid)
                           else default ∅ (_known_recipients ra !! sid)]>
                    (_known_recipients ra)
             else _known_recipients ra),
          (if large_amount_signal (risk_config ra) a c
              || frequent_signal ra sid (time_of now w)
           then HIGH
           else if new_recipient_signal ra sid rid
                   || _is_night (risk_config ra) (time_of now w)
                then MEDIUM else LOW,
           ((if large_amount_signal (risk_config ra) a c then [reason_large_amount] else [])
            ++ (if frequent_signal ra sid (time_of now w) then [reason_frequent] else [])
            ++ (if new_recipient_signal ra sid rid then [reason_new_recipient] else [])
            ++ (if _is_night (risk_config ra) (time_of now w) then [reason_night] else []))%list,
           ex)),
       tick now w).
Proof.
  intros Hs Hr.
  pose proof (_account_id_tick s now w sid Hs) as Hs'.
  pose proof (_account_id_tick r now w rid Hr) as Hr'.
  destruct (_owner_name_run s (tick now w)) as [os Hos].
  destruct (_owner_name_run r (tick now w)) as [or Hor].
  unfold assess. rewrite (bind_Return _ _ _ _ _ (now_or_clock_run now w)).
  unfold large_amount_signal, frequent_signal, new_recipient_signal.
  destruct (large_amount_threshold (risk_config ra) !! c) as [th|];
    [destruct (Qle_bool th _) | ]; cbv beta iota;
    rewrite (bind_Return _ _ _ _ _ Hs');
    (destruct (nonempty sid);
     [destruct (frequency_limit (risk_config ra) <=? _) | ]); cbv beta iota;
    rewrite (bind_Return _ _ _ _ _ Hr');
    destruct (nonempty rid);
    destruct (bool_decide (rid ∈ default ∅ (_known_recipients ra !! sid)));
    destruct (_is_night (risk_config ra) (time_of now w)); cbv beta iota;
    cbn [andb negb orb]; cbv beta iota;
    rewrite (bind_Return _ _ _ _ _ Hos); rewrite (bind_Return _ _ _ _ _ Hor);
    eexists; reflexivity.
Qed.

(** X23. [assess] combines four independent signals.  The reasons are, in
    this order, "large amount" when the amount reaches the threshold of the
    currency, "frequent operations" when the pruned history of the sender
    reaches the limit, "new recipient" when the recipient is not among those
    known for the sender, "night operation" when the time of day is in the
    night window.  The level is High when one of the first two signals is
    there, else Medium when one of the last two is there, else Low.  The
    call never raises, and it touches nothing of the world but the clock,
    read when no [now] is given.  The time of day is that of [now] in UTC:
    [now] is [None] or an aware UTC datetime, as everywhere in the
    embedding; for a [now] in another time zone the code takes the wall time
    of that zone. *)
Theorem assess_combines_four_signals (w : World) (ra : RiskAnalyzer) (a : PyValue)
    (c : Currency) (s r : PyObj) (now : option datetime) (sid rid : string) :
  outcome (_account_id s) w = Return sid ->
  outcome (_account_id r) w = Return rid ->
  let large := large_amount_signal (risk_config ra) a c in
  let frequent := frequent_signal ra sid (time_of now w) in
  let novel := new_recipient_signal ra sid rid in
  let night := _is_night (risk_config ra) (time_of now w) in
  exists ra' ex,
    run (assess ra a c s r now) w
    = (Return (ra',
               (if large || frequent then HIGH
                else if novel || night then MEDIUM else LOW,
                ((if large then [reason_large_amount] else [])
                 ++ (if frequent then [reason_frequent] else [])
                 ++ (if novel then [reason_new_recipient] else [])
                 ++ (if night then [reason_night] else []))%list,
                ex)),
       tick now w).
Proof.
  intros Hs Hr. simpl.
  destruct (assess_run ra a c s r now w sid rid Hs Hr) as [ex Hrun].
  eexists. exists ex. exact Hrun.
Qed.

(** X24. [assess] writes the memory of the analyzer under the id of the
    sender only: the configuration, and the history and the known recipients
    of every other sender, are as before; when the sender has no id (it is
    [None] or no account, or its id is the empty string) the analyzer is
    left exactly as it was. *)
Theorem assess_remembers_under_the_sender_only (w w' : World) (ra ra' : RiskAnalyzer)
    (a : PyValue) (c : Currency) (s r : PyObj) (now : option datetime) (sid : string)
    (res : RiskLevel * list string * list (string * ExtraValue)) :
  outcome (_account_id s) w = Return sid ->
  run (assess ra a c s r now) w = (Return (ra', res), w') ->
  risk_config ra' = risk_config ra
  /\ (forall k, k <> sid ->
                _history ra' !! k = _history ra !! k
                /\ _known_recipients ra' !! k = _known_recipients ra !! k)
  /\ (sid = "" -> ra' = ra).
Proof.
  intros Hs Hrun.
  destruct (_account_id_run r w) as [rid Hr].
  assert (Hr' : outcome (_account_id r) w = Return rid) by (unfold outcome; rewrite Hr; reflexivity).
  destruct (assess_run ra a c s r now w sid rid Hs Hr') as [ex Hrun'].
  unfold run in Hrun. rewrite Hrun' in Hrun. inversion Hrun; subst; clear Hrun.
  simpl. split; [reflexivity | ]. split.
  - intros k Hk. destruct (nonempty sid); [ | split; reflexivity].
    rewrite !lookup_insert_ne by congruence. split; reflexivity.
  - intros ->. simpl. destruct ra; reflexivity.
Qed.


(** ** The reports of the audit log *)

Lemma error_statistics_fold (rs : list AuditRecord) (stats : gmap string Z) (key : string) :
  default 0
    (fold_left (fun stats r =>
                  let key := before_colon (message r) in
                  <[key := default 0 (stats !! key) + 1]> stats) rs stats !! key)
  = default 0 (stats !! key)
    + Z.of_nat (length (List.filter
                          (fun r => String.eqb (before_colon (message r)) key) rs)).
Proof.
  revert stats. induction rs as [|r rs IH]; intros stats; simpl; [lia | ].
  rewrite IH. destruct (String.eqb (before_colon (message r)) key) eqn:E.
  - apply String.eqb_eq in E. subst key. rewrite lookup_insert_eq. simpl length. simpl. lia.
  - apply String.eqb_neq in E. rewrite lookup_insert_ne by exact E. lia.
Qed.

Lemma filter_filter_andb {A} (f g : A -> bool) (l : list A) :
  List.filter g (List.filter f l) = List.filter (fun x => f x && g x) l.
Proof.
  induction l as [|a l IH]; simpl; [reflexivity | ].
  destruct (f a); simpl; [destruct (g a); rewrite IH; reflexivity | exact IH].
Qed.

Lemma error_statistics_keys (rs : list AuditRecord) (stats : gmap string Z) (key : string) :
  fold_left (fun stats r =>
               let key := before_colon (message r) in
               <[key := default 0 (stats !! key) + 1]> stats) rs stats !! key = None
  <-> stats !! key = None
      /\ List.filter (fun r => String.eqb (before_colon (message r)) key) rs = [].
Proof.
  revert stats. induction rs as [|r rs IH]; intros stats; simpl; [tauto | ].
  rewrite IH. destruct (String.eqb (before_colon (message r)) key) eqn:E.
  - apply String.eqb_eq in E. subst key. rewrite lookup_insert_eq.
    split; [intros [H _]; discriminate H | intros [_ H]; discriminate H].
  - apply String.eqb_neq in E. rewrite lookup_insert_ne by exact E. tauto.
Qed.

(** X26. [get_error_statistics] counts the ERROR records by what their
    message says before the first colon: under each key stands the number
    of ERROR records with that beginning, a key with no such record is not
    in the result, and records of the other levels are not counted. *)
Theorem error_statistics_count_error_records (log : AuditLog) (key : string) :
  get_error_statistics log !! key
  = match errors_under key (records log) with
    | [] => None
    | rs => Some (Z.of_nat (length rs))
    end.
Proof.
  unfold get_error_statistics, AuditLog_filter, errors_under.
  rewrite <- filter_filter_andb.
  set (errs := List.filter (fun r => AuditLevel_eqb (level r) ERROR) (records log)).
  pose proof (error_statistics_fold errs ∅ key) as Hn.
  pose proof (error_statistics_keys errs ∅ key) as Hk.
  rewrite lookup_empty in Hn, Hk. simpl in Hn.
  destruct (List.filter (fun r => String.eqb (before_colon (message r)) key) errs)
    as [|r rs] eqn:Ef.
  - apply Hk. split; reflexivity.
  - destruct (fold_left _ errs ∅ !! key) as [n|] eqn:En.
    + simpl in Hn. rewrite Hn. reflexivity.
    + destruct Hk as [Hk _]. destruct (Hk eq_refl) as [_ Hnil]. discriminate Hnil.
Qed.

Lemma get_suspicious_operations_snoc rs r :
  get_suspicious_operations (mkAuditLog (rs ++ [r])%list)
  = (get_suspicious_operations (mkAuditLog rs)
     ++ (if AuditLevel_eqb (level r) WARNING || AuditLevel_eqb (level r) ERROR
         then [r] else []))%list.
Proof. unfold get_suspicious_operations. simpl. apply List.filter_app. Qed.

Lemma get_error_statistics_snoc rs r :
  get_error_statistics (mkAuditLog (rs ++ [r])%list)
  = if AuditLevel_eqb (level r) ERROR
    then <[before_colon (message r)
           := default 0 (get_error_statistics (mkAuditLog rs) !! before_colon (message r))
              + 1]> (get_error_statistics (mkAuditLog rs))
    else get_error_statistics (mkAuditLog rs).
Proof.
  unfold get_error_statistics, AuditLog_filter. simpl.
  rewrite List.filter_app, fold_left_app. simpl.
  destruct (AuditLevel_eqb (level r) ERROR); reflexivity.
Qed.

(** X27. A transaction blocked by the risk stage shows in the reports of the
    audit log: [process_next] appends one ERROR record, which
    [get_suspicious_operations] then lists last, and which
    [get_error_statistics] counts under the key of the risk messages, the
    text before the colon of the message. *)
Theorem blocked_transaction_shows_in_reports (now : option datetime) (w w1 wa : World)
    (tx : nat) (ra ra' : RiskAnalyzer) (reasons : list string)
    (ex : list (string * ExtraValue)) (log : AuditLog) :
  run (pop_ready now) w = (Return (Some tx), w1) ->
  risk_analyzer w1 = Some ra ->
  run (assess ra (amount (transactions w tx)) (tx_currency (transactions w tx))
         (sender (transactions w tx)) (recipient (transactions w tx)) now) w1
    = (Return (ra', (HIGH, reasons, ex)), wa) ->
  audit_log w = Some log ->
  exists log' r,
    audit_log (exec (process_next now) w) = Some log'
    /\ records log' = (records log ++ [r])%list
    /\ level r = ERROR
    /\ get_suspicious_operations log' = (get_suspicious_operations log ++ [r])%list
    /\ get_error_statistics log'
       = <["оценка риска"
           := default 0 (get_error_statistics log !! "оценка риска") + 1]>
           (get_error_statistics log).
Proof.
  intros Hpop Hra Hassess Hlog. unfold run in *.
  destruct (pop_then_assess_same now w w1 wa tx ra _ _ _ _ _ Hpop Hassess)
    as (Htx & _ & _ & Haud).
  rewrite <- Htx in Hassess.
  destruct (risk_stage_blocks now w1 wa tx ra ra' reasons ex Hra Hassess)
    as (w2 & Hrun & _ & _ & _ & _ & _ & Haud2).
  rewrite Haud, Hlog in Haud2. destruct Haud2 as [ts Haud2].
  unfold exec, process_next, process_popped.
  rewrite (bind_Return _ _ _ _ _ Hpop). rewrite (bind_Return _ _ _ _ _ Hrun). simpl.
  eexists. eexists. split; [exact Haud2 | ].
  split; [reflexivity | ]. split; [reflexivity | ].
  destruct log as [rs]. simpl records.
  rewrite get_suspicious_operations_snoc, get_error_statistics_snoc.
  split; reflexivity.
Qed.

(** ** The logs are only appended to *)

Global Instance logs_grow_preorder : PreOrder logs_grow.
Proof.
  split.
  - intros w. split; [exists []; rewrite app_nil_r; reflexivity | ].
    destruct (audit_log w) as [[rs]|]; [ | reflexivity].
    exists []. simpl. rewrite app_nil_r. reflexivity.
  - intros a b c [[l1 He1] Ha1] [[l2 He2] Ha2]. split.
    + exists (l1 ++ l2)%list. rewrite He2, He1, <- app_assoc. reflexivity.
    + destruct (audit_log a) as [log|].
      * destruct Ha1 as [rs1 Ha1]. rewrite Ha1 in Ha2. destruct Ha2 as [rs2 Ha2].
        exists (rs1 ++ rs2)%list. rewrite Ha2. simpl. rewrite <- app_assoc. reflexivity.
      * rewrite Ha1 in Ha2. exact Ha2.
Qed.

Lemma logs_grow_same w w' :
  error_log w' = error_log w -> audit_log w' = audit_log w -> logs_grow w w'.
Proof.
  intros He Ha. split; [exists []; rewrite app_nil_r; exact He | ].
  rewrite Ha. destruct (audit_log w) as [[rs]|]; [ | reflexivity].
  exists []. simpl. rewrite app_nil_r. reflexivity.
Qed.

Global Instance logs_grow_accounts : AllowsAccounts logs_grow.
Proof. intros w f. apply logs_grow_same; reflexivity. Qed.
Global Instance logs_grow_transactions : AllowsTransactions logs_grow.
Proof. intros w f. apply logs_grow_same; reflexivity. Qed.
Global Instance logs_grow_queue : AllowsQueue logs_grow.
Proof. intros w f. apply logs_grow_same; reflexivity. Qed.
Global Instance logs_grow_clock : AllowsClock logs_grow.
Proof. intros w f. apply logs_grow_same; reflexivity. Qed.
Global Instance logs_grow_risk : AllowsRiskAnalyzer logs_grow.
Proof. intros w f. apply logs_grow_same; reflexivity. Qed.

Lemma append_error_log_grows s : preserves logs_grow (append_error_log s).
Proof.
  intros w. split; [exists [s]; reflexivity | ]. simpl.
  destruct (audit_log w) as [[rs]|]; [ | reflexivity].
  exists []. simpl. rewrite app_nil_r. reflexivity.
Qed.

Lemma risk_stage_grows tx now : preserves logs_grow (risk_stage tx now).
Proof.
  intros w. destruct (risk_stage_returns tx now w) as [b Hb].
  destruct (risk_stage tx now w) as [[b'|e] w'] eqn:E; simpl in Hb; [ | discriminate Hb].
  simpl. clear Hb b. revert E.
  unfold risk_stage. unfold bind at 1. unfold get at 1.
  destruct (risk_analyzer w) as [ra|]; [ | intros [= _ <-]; reflexivity].
  unfold bind at 1. unfold read_tx at 1.
  intros H. apply bind_Return_inv in H as ([ra' [[lvl reasons] ex]] & wa & Ha & H).
  apply (preserves_run logs_grow) in Ha; [ | apply assess_frame; typeclasses eauto].
  apply bind_Return_inv in H as ([] & wb & Hb & H).
  apply (preserves_run logs_grow) in Hb;
    [ | apply preserves_set_risk_analyzer; typeclasses eauto].
  apply bind_Return_inv in H as (w1 & wc & Hc & H). inversion Hc; subst wc w1; clear Hc.
  apply bind_Return_inv in H as ([] & wd & Hd & H).
  assert (Hd' : logs_grow wb wd).
  { destruct (audit_log wb) as [log|] eqn:Elog.
    - unfold AuditLog_add, bind, datetime_now, modify, ret in Hd. inversion Hd; subst wd.
      split; [exists []; rewrite app_nil_r; reflexivity | ].
      rewrite Elog. eexists. reflexivity.
    - inversion Hd; subst wd. reflexivity. }
  assert (He : logs_grow wd w').
  { destruct lvl.
    - inversion H; subst. reflexivity.
    - inversion H; subst. reflexivity.
    - apply bind_Return_inv in H as ([] & we & Hm & H). inversion H; subst.
      apply (preserves_run logs_grow) in Hm; [exact Hm | ].
      apply mark_failed_frame; typeclasses eauto. }
  etransitivity; [exact Ha | ]. etransitivity; [exact Hb | ].
  etransitivity; [exact Hd' | exact He].
Qed.

Lemma process_popped_grows tx now : preserves logs_grow (process_popped tx now).
Proof.
  unfold process_popped, on_terminal_error, on_transient_error.
  repeat first
    [ apply risk_stage_grows
    | apply append_error_log_grows
    | frame_step ].
Qed.

Lemma process_next_grows now : preserves logs_grow (process_next now).
Proof.
  unfold process_next.
  repeat first [ apply process_popped_grows | frame_step ].
Qed.

Lemma run_all_grows now n : preserves logs_grow (run_all now n).
Proof.
  induction n as [|n IH]; simpl.
  - apply preserves_ret; typeclasses eauto.
  - apply preserves_bind; [typeclasses eauto | apply process_next_grows | ].
    intros [|]; [exact IH | apply preserves_ret; typeclasses eauto].
Qed.

Lemma step_grows o w : logs_grow w (step o w).
Proof.
  destruct o as [tx|id reason|now|tx d|now|now n]; unfold step.
  - exact (add_frame logs_grow tx w).
  - exact (cancel_frame logs_grow id reason w).
  - exact (pop_ready_frame logs_grow now w).
  - exact (requeue_frame logs_grow tx d w).
  - exact (process_next_grows now w).
  - exact (run_all_grows now n w).
Qed.

(** X28. The error log and the audit log are append-only: through every
    sequence of queue and processor operations the error log keeps its
    entries in place and gains entries at the end, and so does the audit
    log; a processor built without audit log never gets one. *)
Theorem logs_are_append_only (ops : list Op) (w : World) :
  (exists l, error_log (steps ops w) = (error_log w ++ l)%list)
  /\ match audit_log w with
     | Some log =>
         exists rs, audit_log (steps ops w) = Some (mkAuditLog (records log ++ rs)%list)
     | None => audit_log (steps ops w) = None
     end.
Proof.
  revert w. induction ops as [|o ops IH]; intros w.
  - apply (reflexivity (R := logs_grow) w).
  - apply (transitivity (R := logs_grow) (step_grows o w) (IH (step o w))).
Qed.

(** ** The default rates of the processor *)



(** ** Monthly interest on a savings account *)



(** ** The further properties at concrete worlds *)

(** X2 at the world of t1, added and processed: no balance is under its
    floor afterwards. *)
Lemma operations_respect_balance_floors_witness :
  within_limits (accounts (steps [OpAdd 0; OpProcessNext (Some 0)] world_transfer) 0).
Proof.
  apply (operations_respect_balance_floors [OpAdd 0; OpProcessNext (Some 0)] world_transfer).
  intros [|l]; vm_compute; discriminate.
Defined.

(** X3: a credit to a frozen account is queued and processed; the account is
    as before. *)
Lemma operations_leave_inactive_accounts_witness :
  accounts (steps [OpAdd 0; OpProcessNext (Some 0)] world_frozen_credit) 0
  = accounts world_frozen_credit 0.
Proof.
  apply (operations_leave_inactive_accounts [OpAdd 0; OpProcessNext (Some 0)]
           world_frozen_credit 0).
  vm_compute. discriminate.
Defined.

(** X4: a transfer of zero RUB. *)
Lemma bad_amount_is_refused_unchanged_witness :
  exists msg,
    run (_process_transaction 0) world_zero_amount
    = (Raise (mkExn InvalidOperationError msg), world_zero_amount).
Proof.
  apply (bad_amount_is_refused_unchanged world_zero_amount 0).
  left. exists 0%Q. split; [reflexivity | vm_compute; discriminate].
Defined.

(** X5: 100 RUB from nobody to nobody. *)
Lemma transfer_between_nobody_is_refused_witness :
  exists msg,
    run (_process_transaction 0) world_nobody
    = (Raise (mkExn InvalidOperationError msg), world_nobody).
Proof.
  apply (transfer_between_nobody_is_refused world_nobody 0 100 0); reflexivity.
Defined.

(** X6: the external debit of 1 RUB from A. *)
Lemma external_debit_is_one_withdraw_witness :
  exists v,
    (v == (1 + fee_total (config world_urgent_and_early)
                 (transactions world_urgent_and_early 0) 0) * 1)%Q
    /\ run (_process_transaction 0) world_urgent_and_early
       = run (withdraw 0 v) world_urgent_and_early.
Proof.
  apply (external_debit_is_one_withdraw world_urgent_and_early 0 0 1 0 1);
    vm_compute; reflexivity.
Defined.




(** X11: t1 is queued and processed at once. *)
Lemma process_next_marks_processed_witness :
  outcome (process_next (Some 0)) (steps [OpAdd 0] world_transfer) = Return true
  /\ tx_status (transactions (exec (process_next (Some 0)) (steps [OpAdd 0] world_transfer)) 0)
     = PROCESSED.
Proof.
  destruct (process_next_marks_processed (Some 0) (steps [OpAdd 0] world_transfer)
              (exec (pop_ready (Some 0)) (steps [OpAdd 0] world_transfer))
              (exec (pop_ready (Some 0)) (steps [OpAdd 0] world_transfer))
              (exec (_process_transaction 0)
                 (exec (pop_ready (Some 0)) (steps [OpAdd 0] world_transfer)))
              0%nat)
    as (Hret & Hst & _);
    [ vm_compute; reflexivity .. | ].
  split; [exact Hret | exact Hst].
Defined.

(** X12: 200000 RUB are blocked. *)
Lemma high_risk_blocks_before_execution_witness :
  outcome (process_next (Some 0)) world_risky = Return true
  /\ tx_status (transactions (exec (process_next (Some 0)) world_risky) 0) = FAILED
  /\ accounts (exec (process_next (Some 0)) world_risky) = accounts world_risky.
Proof.
  assert (H : exists ra' reasons ex,
             run (assess new_RiskAnalyzer (amount (transactions world_risky 0))
                    (tx_currency (transactions world_risky 0))
                    (sender (transactions world_risky 0))
                    (recipient (transactions world_risky 0)) (Some 0))
                 (exec (pop_ready (Some 0)) world_risky)
             = (Return (ra', (HIGH, reasons, ex)), exec (pop_ready (Some 0)) world_risky)).
  { do 3 eexists. vm_compute. reflexivity. }
  destruct H as (ra' & reasons & ex & H).
  destruct (high_risk_blocks_before_execution (Some 0) world_risky
              (exec (pop_ready (Some 0)) world_risky)
              (exec (pop_ready (Some 0)) world_risky)
              0%nat new_RiskAnalyzer ra' reasons ex)
    as (Hret & Hst & _ & Hacc & _);
    [ vm_compute; reflexivity | vm_compute; reflexivity | exact H | ].
  split; [exact Hret | ]. split; [exact Hst | exact Hacc].
Defined.

(** X14: t1 has failed; it is not handed out again. *)
Lemma settled_transaction_is_never_popped_witness :
  tx_status (transactions world_failed 0) = FAILED
  /\ outcome (pop_ready None) (steps [OpRequeue 0 0; OpProcessNext (Some 0)] world_failed)
     <> Return (Some 0%nat).
Proof.
  split; [vm_compute; reflexivity | ].
  apply (settled_transaction_is_never_popped [OpRequeue 0 0; OpProcessNext (Some 0)]
           world_failed None 0).
  vm_compute. discriminate.
Defined.

(** X15: t1 is cancelled, processed (to no effect), and cancelled again. *)
Lemma cancel_is_idempotent_witness :
  run (cancel "t1" "again")
    (steps [OpProcessNext (Some 0)] (exec (cancel "t1" "first") world_poor_queued))
  = (Return false,
     steps [OpProcessNext (Some 0)] (exec (cancel "t1" "first") world_poor_queued)).
Proof.
  apply (cancel_is_idempotent [OpProcessNext (Some 0)] world_poor_queued "t1" "first" "again").
  vm_compute. reflexivity.
Defined.

(** X18: the first transaction added to an empty queue. *)
Lemma add_counts_pending_transactions_witness :
  outcome __len__ (exec (add 0) world_transfer) = Return 1.
Proof.
  rewrite (add_counts_pending_transactions world_transfer (exec (add 0) world_transfer) 0);
    vm_compute; reflexivity.
Defined.

(** X20: t1 is added and processed. *)
Lemma queue_keys_are_transaction_ids_witness :
  ids_agree (steps [OpAdd 0; OpProcessNext (Some 0)] world_transfer).
Proof.
  apply (queue_keys_are_transaction_ids [OpAdd 0; OpProcessNext (Some 0)] world_transfer).
  apply ids_agree_empty. reflexivity.
Defined.

(** X21: the pending t1 is cancelled; the queue is empty afterwards. *)
Lemma cancel_takes_one_off_the_count_witness :
  outcome __len__ world_poor_queued = Return 1
  /\ outcome __len__ (exec (cancel "t1" "r") world_poor_queued) = Return 0.
Proof.
  split; [vm_compute; reflexivity | ].
  destruct (cancel_takes_one_off_the_count world_poor_queued "t1" "r") as (tx & Hi & Hn).
  - apply (step_ids_agree (OpAdd 0)
             (fresh_world accounts_poor_A transfer_A_B None (fun _ => 0))).
    apply ids_agree_empty. reflexivity.
  - vm_compute. reflexivity.
  - rewrite Hn. vm_compute in Hi. inversion Hi; subst tx. vm_compute. reflexivity.
Defined.

(** X22: t1 fails for want of funds and leaves the count. *)
Lemma process_next_takes_one_off_the_count_witness :
  outcome __len__ (exec (process_next (Some 0)) world_poor_queued) = Return 0.
Proof.
  rewrite (process_next_takes_one_off_the_count (Some 0) world_poor_queued 0).
  - vm_compute. reflexivity.
  - apply (step_ids_agree (OpAdd 0)
             (fresh_world accounts_poor_A transfer_A_B None (fun _ => 0))).
    apply ids_agree_empty. reflexivity.
  - vm_compute. reflexivity.
Defined.

(** X23: 1 RUB from A to B at noon, first assessment: Medium, new recipient. *)
Lemma assess_combines_four_signals_witness :
  exists ra' ex,
    run (assess new_RiskAnalyzer (PyFloat 1) RUB (PyAccount 0) (PyAccount 1)
           (Some (timedelta_seconds 43200))) world_transfer
    = (Return (ra', (MEDIUM, [reason_new_recipient], ex)), world_transfer).
Proof.
  destruct (assess_combines_four_signals world_transfer new_RiskAnalyzer (PyFloat 1) RUB
              (PyAccount 0) (PyAccount 1) (Some (timedelta_seconds 43200)) "A" "B")
    as (ra' & ex & H); [vm_compute; reflexivity .. | ].
  exists ra', ex. exact H.
Defined.

(** X24: after an assessment for sender A nothing is remembered for B. *)
Lemma assess_remembers_under_the_sender_only_witness :
  exists ra' res,
    run (assess new_RiskAnalyzer (PyFloat 1) RUB (PyAccount 0) (PyAccount 1)
           (Some (timedelta_seconds 43200))) world_transfer
    = (Return (ra', res), world_transfer)
    /\ risk_config ra' = default_RiskConfig
    /\ _history ra' !! "B" = None.
Proof.
  assert (H : exists ra' res,
             run (assess new_RiskAnalyzer (PyFloat 1) RUB (PyAccount 0) (PyAccount 1)
                    (Some (timedelta_seconds 43200))) world_transfer
             = (Return (ra', res), world_transfer)).
  { do 2 eexists. vm_compute. reflexivity. }
  destruct H as (ra' & res & H). exists ra', res. split; [exact H | ].
  destruct (assess_remembers_under_the_sender_only world_transfer world_transfer
              new_RiskAnalyzer ra' (PyFloat 1) RUB (PyAccount 0) (PyAccount 1)
              (Some (timedelta_seconds 43200)) "A" res)
    as (Hcfg & Hk & _); [vm_compute; reflexivity | exact H | ].
  split; [exact Hcfg | ].
  destruct (Hk "B") as [Hh _]; [discriminate | ]. rewrite Hh. reflexivity.
Defined.


(** X27: the blocked transfer of 200000 RUB is the one suspicious operation
    of the log and the one error under the key of the risk messages. *)
Lemma blocked_transaction_shows_in_reports_witness :
  exists log' r,
    audit_log (exec (process_next (Some 0)) world_risky) = Some log'
    /\ get_suspicious_operations log' = [r]
    /\ get_error_statistics log' !! "оценка риска" = Some 1.
Proof.
  assert (H : exists ra' reasons ex,
             run (assess new_RiskAnalyzer (amount (transactions world_risky 0))
                    (tx_currency (transactions world_risky 0))
                    (sender (transactions world_risky 0))
                    (recipient (transactions world_risky 0)) (Some 0))
                 (exec (pop_ready (Some 0)) world_risky)
             = (Return (ra', (HIGH, reasons, ex)), exec (pop_ready (Some 0)) world_risky)).
  { do 3 eexists. vm_compute. reflexivity. }
  destruct H as (ra' & reasons & ex & H).
  destruct (blocked_transaction_shows_in_reports (Some 0) world_risky
              (exec (pop_ready (Some 0)) world_risky)
              (exec (pop_ready (Some 0)) world_risky)
              0%nat new_RiskAnalyzer ra' reasons ex (mkAuditLog []))
    as (log' & r & Hlog & _ & _ & Hsus & Hstat);
    [ vm_compute; reflexivity | vm_compute; reflexivity | exact H | vm_compute; reflexivity | ].
  exists log', r. split; [exact Hlog | ]. split; [exact Hsus | ].
  rewrite Hstat. rewrite lookup_insert_eq. reflexivity.
Defined.



(** ** Where binary64 leaves exact arithmetic *)

(** The statements above that are made in exact arithmetic describe the
    code on the inputs on which its [float] operations do not round.  The
    remarks below are computed in IEEE binary64, the [float] of the source,
    and show how near the other inputs are: a conversion at the default
    rates, two withdrawals against one, the sum of two fees that reaches the
    amount, a total debit that loses the fee, and NaN, which is neither
    [<= 0] nor [> balance] and so passes the guards of
    [_process_transaction] and of [withdraw]. *)
Module Rounding.
Import PrimFloat.

#[warnings="-inexact-float"]
Remark conversion_can_round :
  ((50 * (14 / 100) =? 7) = false
   /\ (50 * (14 / 100) =? 7.000000000000001) = true)%float.
Proof. split; vm_compute; reflexivity. Qed.

#[warnings="-inexact-float"]
Remark two_withdrawals_can_round :
  (((1 - 0.1) - 0.7 =? 0.2) = false
   /\ ((1 - 0.1) - 0.7 =? 0.20000000000000007) = true)%float.
Proof. split; vm_compute; reflexivity. Qed.

#[warnings="-inexact-float"]
Remark fee_sum_can_reach_the_amount :
  ((0.2 + 0.1 <? 0.30000000000000004) = false
   /\ (0.30000000000000004 - (0.2 + 0.1) <=? 0) = true)%float.
Proof. split; vm_compute; reflexivity. Qed.

#[warnings="-inexact-float"]
Remark total_debit_can_lose_the_fee :
  ((9007199254740992 + 1 <=? 9007199254740992) = true)%float.
Proof. vm_compute. reflexivity. Qed.

#[warnings="-inexact-float"]
Remark nan_passes_the_guards :
  ((nan <=? 0) = false /\ (nan <? 1000) = false /\ (1000 <? nan) = false)%float.
Proof. repeat split; vm_compute; reflexivity. Qed.

End Rounding.
